(** * Prompt-image studio: response normalisation and generation history

    A shallow embedding of the logic of the two page variants of the
    application:

    - the image-result page (module [ImageMode]): [parseAgentTextResponse],
      [extractImageResult] and the success path of [handleGenerate];
    - the prompt-enhancement page (module [EnhanceMode]): [extractImageData]
      and the history entry its [handleGenerate] records;
    - the other handlers of the two pages as state machines over the events
      of a session (modules [ImagePage] and [EnhancePage]), and the three
      effects that load, persist and switch the stored history (module
      [HistoryStore]).

    Conventions of the embedding.

    - A JavaScript string is a [string]: a sequence of code units, here the
      code units 0..255.  White space ([trim], the class [\s]) and case
      mapping ([toLowerCase], the [i] flag) are the ECMAScript ones
      restricted to that range.
    - A value of type [any] is a [JsVal]: the JSON values and [undefined].
      An object lists its own properties in enumeration order.  Numbers are
      the integral ones, printed in decimal.
    - An operation that can raise a [TypeError] returns a [Completion].
    - React state is passed explicitly: a handler maps the state before the
      event to the state after it. *)

From Stdlib Require Import ZArith NArith String Ascii List Bool Lia.
From Stdlib Require Import Decimal DecimalString DecimalZ.
Import ListNotations.

Set Warnings "-register-all".

Open Scope string_scope.

(* ------------------------------------------------------------------ *)
(** ** String primitives *)

Module JsString.

(** Code unit of a character. *)
Definition code (c : ascii) : N := N_of_ascii c.

(** ECMAScript [WhiteSpace] and [LineTerminator] below U+0100: TAB, LF, VT,
    FF, CR, SP and NBSP.  [String.prototype.trim] and the class [\s] use
    the same set. *)
Definition isWhiteSpace (c : ascii) : bool :=
  let n := code c in
  ((9 <=? n) && (n <=? 13) || (n =? 32) || (n =? 160))%N.

(** [toLowerCase] on one code unit: A-Z and the upper-case letters of the
    Latin-1 supplement (U+00C0..U+00DE except the multiplication sign). *)
Definition toLowerCaseChar (c : ascii) : ascii :=
  let n := code c in
  if ((65 <=? n) && (n <=? 90)
      || (192 <=? n) && (n <=? 222) && negb (n =? 215))%N
  then ascii_of_N (n + 32) else c.

Fixpoint toLowerCase (s : string) : string :=
  match s with
  | EmptyString => EmptyString
  | String c s' => String (toLowerCaseChar c) (toLowerCase s')
  end.

Fixpoint trimStart (s : string) : string :=
  match s with
  | EmptyString => EmptyString
  | String c s' => if isWhiteSpace c then trimStart s' else s
  end.

Fixpoint trimEnd (s : string) : string :=
  match s with
  | EmptyString => EmptyString
  | String c s' =>
      match trimEnd s' with
      | EmptyString => if isWhiteSpace c then EmptyString else String c EmptyString
      | t => String c t
      end
  end.

Definition trim (s : string) : string := trimEnd (trimStart s).

(** [s.indexOf(c)] for a one-character search string: the position of the
    first occurrence, or -1. *)
Fixpoint indexOf (c : ascii) (s : string) : Z :=
  match s with
  | EmptyString => (-1)%Z
  | String a s' =>
      if Ascii.eqb a c then 0%Z
      else let i := indexOf c s' in
           if (i <? 0)%Z then (-1)%Z else (i + 1)%Z
  end.

Definition clamp (len i : Z) : Z := Z.max 0 (Z.min i len).

(** [s.substring(start, finish)]: both indices are clamped to the string
    and swapped when out of order. *)
Definition substring (s : string) (start finish : Z) : string :=
  let len := Z.of_nat (String.length s) in
  let a := clamp len start in
  let b := clamp len finish in
  let from := Z.min a b in
  let to := Z.max a b in
  String.substring (Z.to_nat from) (Z.to_nat (to - from)) s.

(** [s.substring(start)]: the end defaults to the length. *)
Definition substringFrom (s : string) (start : Z) : string :=
  substring s start (Z.of_nat (String.length s)).

(** [s.split(c)] for a one-character separator; never empty. *)
Fixpoint split (sep : ascii) (s : string) : list string :=
  match s with
  | EmptyString => [EmptyString]
  | String c s' =>
      if Ascii.eqb c sep then EmptyString :: split sep s'
      else match split sep s' with
           | [] => [String c EmptyString]
           | l :: ls => String c l :: ls
           end
  end.

(** [s.replace(/\s+/g, '_')]: every maximal run of white space becomes one
    underscore.  [inRun] tells that the previous code unit was white
    space, so that the run has been replaced already. *)
Fixpoint replaceWsRunsFrom (inRun : bool) (s : string) : string :=
  match s with
  | EmptyString => EmptyString
  | String c s' =>
      if isWhiteSpace c
      then (if inRun then replaceWsRunsFrom true s'
            else String "_" (replaceWsRunsFrom true s'))
      else String c (replaceWsRunsFrom false s')
  end.

Definition replaceWsRuns (s : string) : string := replaceWsRunsFrom false s.

Definition LF : ascii := "010"%char.

End JsString.

(* ------------------------------------------------------------------ *)
(** ** Values of type [any] *)

Inductive JsVal : Type :=
| JUndefined
| JNull
| JBool (b : bool)
| JNum (n : Z)
| JStr (s : string)
| JArr (items : list JsVal)
| JObj (props : list (string * JsVal)).

(** Abrupt completion: the only exception the modelled code can raise. *)
Inductive JsError : Type := TypeError.

Inductive Completion (A : Type) : Type :=
| Normal (a : A)
| Throw (e : JsError).
Arguments Normal {A} a.
Arguments Throw {A} e.

Definition bindC {A B} (c : Completion A) (k : A -> Completion B) : Completion B :=
  match c with
  | Normal a => k a
  | Throw e => Throw e
  end.

Notation "x <- c ;; k" := (bindC c (fun x => k))
  (at level 61, c at next level, right associativity).

Module Js.

(** [ToBoolean]. *)
Definition truthy (v : JsVal) : bool :=
  match v with
  | JUndefined | JNull => false
  | JBool b => b
  | JNum n => negb (n =? 0)%Z
  | JStr s => negb (s =? "")
  | JArr _ | JObj _ => true
  end.

Definition isNullish (v : JsVal) : bool :=
  match v with
  | JUndefined | JNull => true
  | _ => false
  end.

Definition typeofString (v : JsVal) : bool :=
  match v with
  | JStr _ => true
  | _ => false
  end.

Fixpoint lookup (k : string) (props : list (string * JsVal)) : JsVal :=
  match props with
  | [] => JUndefined
  | (k', v) :: rest => if k' =? k then v else lookup k rest
  end.

(** Property read for the names the program uses ([text], [message],
    [data], the result fields, ...): none of them is defined on a
    prototype, so on anything but an object the read gives [undefined]. *)
Definition member (v : JsVal) (k : string) : JsVal :=
  match v with
  | JObj props => lookup k props
  | _ => JUndefined
  end.

(** [v?.k] *)
Definition optGet (v : JsVal) (k : string) : JsVal :=
  if isNullish v then JUndefined else member v k.

(** [v.k]: a [TypeError] on [null] and [undefined]. *)
Definition get (v : JsVal) (k : string) : Completion JsVal :=
  if isNullish v then Throw TypeError else Normal (member v k).

(** [a || b] on values already computed. *)
Definition or (a b : JsVal) : JsVal := if truthy a then a else b.

(** [a ?? b] *)
Definition coalesce (a b : JsVal) : JsVal := if isNullish a then b else a.

(** [a === b] against a string literal. *)
Definition strictEqStr (v : JsVal) (s : string) : bool :=
  match v with
  | JStr t => t =? s
  | _ => false
  end.

End Js.

(* ------------------------------------------------------------------ *)
(** ** Arrays and the history update shared by both pages *)

Module JsArray.

(** [l.slice(start, finish)]: a negative index counts from the end, both
    are clamped to the array. *)
Definition slice {A} (l : list A) (start finish : Z) : list A :=
  let len := Z.of_nat (List.length l) in
  let k := if (start <? 0)%Z then Z.max (len + start) 0 else Z.min start len in
  let e := if (finish <? 0)%Z then Z.max (len + finish) 0 else Z.min finish len in
  firstn (Z.to_nat (e - k)) (skipn (Z.to_nat k) l).

End JsArray.

(** The updater passed to [setHistory] by both pages:
    [(prev) => [newItem, ...prev.slice(0, 49)]]. *)
Definition historyUpdater {A} (newItem : A) (prev : list A) : list A :=
  newItem :: JsArray.slice prev 0 49.

(** [Number.prototype.toString] on an integral number. *)
Definition numberToString (n : Z) : string :=
  NilZero.string_of_int (Z.to_int n).

(** The template literal [`gen-${Date.now()}`], given the clock reading. *)
Definition genId (now : Z) : string := "gen-" ++ numberToString now.

Record GenerationParams : Type := mkParams {
  p_style : string;
  p_size : string;
  p_quality : string
}.

(* ------------------------------------------------------------------ *)
(** ** The image-result page *)

Module ImageMode.

Import JsString.

Record ImageGenResult : Type := mkImageGenResult {
  image_url : JsVal;
  enhanced_prompt : JsVal;
  original_prompt : JsVal;
  style : JsVal;
  generation_metadata : JsVal
}.

Definition emptyResult : ImageGenResult :=
  mkImageGenResult (JStr "") (JStr "") (JStr "") (JStr "") (JStr "").

Definition set_image_url (v : JsVal) (r : ImageGenResult) :=
  mkImageGenResult v (enhanced_prompt r) (original_prompt r) (style r) (generation_metadata r).
Definition set_enhanced_prompt (v : JsVal) (r : ImageGenResult) :=
  mkImageGenResult (image_url r) v (original_prompt r) (style r) (generation_metadata r).
Definition set_original_prompt (v : JsVal) (r : ImageGenResult) :=
  mkImageGenResult (image_url r) (enhanced_prompt r) v (style r) (generation_metadata r).
Definition set_style (v : JsVal) (r : ImageGenResult) :=
  mkImageGenResult (image_url r) (enhanced_prompt r) (original_prompt r) v (generation_metadata r).
Definition set_generation_metadata (v : JsVal) (r : ImageGenResult) :=
  mkImageGenResult (image_url r) (enhanced_prompt r) (original_prompt r) (style r) v.

(** The key of a line: [line.substring(0, colonIdx).trim().toLowerCase().replace(/\s+/g, '_')]. *)
Definition lineKey (line : string) (colonIdx : Z) : string :=
  replaceWsRuns (toLowerCase (trim (substring line 0 colonIdx))).

(** The value of a line: [line.substring(colonIdx + 1).trim()]. *)
Definition lineValue (line : string) (colonIdx : Z) : string :=
  trim (substringFrom line (colonIdx + 1)).

(** The chain of comparisons that stores a value under a known key. *)
Definition assign (key value : string) (result : ImageGenResult) : ImageGenResult :=
  if key =? "image_url" then set_image_url (JStr value) result
  else if key =? "enhanced_prompt" then set_enhanced_prompt (JStr value) result
  else if key =? "original_prompt" then set_original_prompt (JStr value) result
  else if key =? "style" then set_style (JStr value) result
  else if key =? "generation_metadata" then set_generation_metadata (JStr value) result
  else result.

(** One iteration of the loop over the lines. *)
Definition parseLine (result : ImageGenResult) (line : string) : ImageGenResult :=
  let colonIdx := indexOf ":" line in
  if (colonIdx =? -1)%Z then result
  else
    let key := lineKey line colonIdx in
    let value := lineValue line colonIdx in
    assign key value result.

(** [text.split] is a method call: on a value that is not a string it
    would raise; the guard before it excludes that. *)
Definition parseAgentTextResponse (text : JsVal) : Completion ImageGenResult :=
  let result := emptyResult in
  if negb (Js.truthy text) || negb (Js.typeofString text) then Normal result
  else
    match text with
    | JStr s =>
        let lines := split LF s in
        Normal (fold_left parseLine lines result)
    | _ => Throw TypeError
    end.


(** *** [JSON.stringify] *)

Definition hexDigit (n : N) : ascii :=
  ascii_of_N (if (n <? 10)%N then 48 + n else 87 + n).

(** [QuoteJSONString] on one code unit. *)
Definition escapeChar (c : ascii) : string :=
  let n := code c in
  if (n =? 34)%N then "\" ++ String c ""
  else if (n =? 92)%N then "\\"
  else if (n =? 8)%N then "\b"
  else if (n =? 12)%N then "\f"
  else if (n =? 10)%N then "\n"
  else if (n =? 13)%N then "\r"
  else if (n =? 9)%N then "\t"
  else if (n <? 32)%N then "\u00" ++ String (hexDigit (n / 16)) (String (hexDigit (n mod 16)) "")
  else String c "".

Fixpoint escapeString (s : string) : string :=
  match s with
  | EmptyString => EmptyString
  | String c s' => escapeChar c ++ escapeString s'
  end.

Definition DQ : ascii := ascii_of_N 34.

Definition quoteJSONString (s : string) : string :=
  String DQ (escapeString s ++ String DQ "").

Fixpoint joinComma (l : list string) : string :=
  match l with
  | [] => ""
  | [x] => x
  | x :: rest => x ++ "," ++ joinComma rest
  end.

(** [JSON.stringify(v)]; [None] is the result [undefined].  In an array
    an [undefined] element prints as [null]; in an object a property
    whose value is [undefined] is left out. *)
Fixpoint stringify (v : JsVal) : option string :=
  match v with
  | JUndefined => None
  | JNull => Some "null"
  | JBool true => Some "true"
  | JBool false => Some "false"
  | JNum n => Some (numberToString n)
  | JStr s => Some (quoteJSONString s)
  | JArr items =>
      Some ("[" ++ joinComma (map (fun x => match stringify x with
                                            | Some t => t
                                            | None => "null"
                                            end) items) ++ "]")
  | JObj props =>
      Some ("{" ++ joinComma (flat_map (fun kv => match stringify (snd kv) with
                                                 | Some t => [quoteJSONString (fst kv) ++ ":" ++ t]
                                                 | None => []
                                                 end) props) ++ "}")
  end.

(** *** The regular expression of the URL fallback *)

(** The fragment of regular expressions the program uses.  [RChar p] is
    one code unit satisfying [p] (a literal or a class); [RPlusChar p] is
    the greedy [[...]+]. *)
Inductive Regex : Type :=
| REmpty
| RChar (p : ascii -> bool)
| RSeq (r1 r2 : Regex)
| RAlt (r1 r2 : Regex)
| RPlusChar (p : ascii -> bool).

Definition orElse {A} (a b : option A) : option A :=
  match a with
  | Some _ => a
  | None => b
  end.

(** Greedy [p*] followed by the continuation [k]: take one more code
    unit first, give it back when the rest fails. *)
Fixpoint starChar (p : ascii -> bool) (k : string -> option nat) (s : string) : option nat :=
  match s with
  | String c s' =>
      if p c then orElse (option_map S (starChar p k s')) (k s) else k s
  | EmptyString => k s
  end.

(** The backtracking matcher of ECMAScript, in continuation style: the
    result is the number of code units consumed by [r] and by [k] after
    it, for the first alternative that lets [k] succeed. *)
Fixpoint matchRe (r : Regex) (s : string) (k : string -> option nat) : option nat :=
  match r with
  | REmpty => k s
  | RChar p =>
      match s with
      | String c s' => if p c then option_map S (k s') else None
      | EmptyString => None
      end
  | RSeq r1 r2 => matchRe r1 s (fun s' => matchRe r2 s' k)
  | RAlt r1 r2 => orElse (matchRe r1 s k) (matchRe r2 s k)
  | RPlusChar p =>
      match s with
      | String c s' => if p c then option_map S (starChar p k s') else None
      | EmptyString => None
      end
  end.

Definition matchHere (r : Regex) (s : string) : option nat :=
  matchRe r s (fun _ => Some 0).

(** [s.match(r)[0]] for a regular expression without the [g] flag: the
    match at the leftmost position that has one. *)
Fixpoint search (r : Regex) (s : string) : option string :=
  match matchHere r s with
  | Some n => Some (String.substring 0 n s)
  | None =>
      match s with
      | String _ s' => search r s'
      | EmptyString => None
      end
  end.

(** Case folding of the [i] flag on the code units below U+0100: only
    A-Z fold onto a-z. *)
Definition foldCase (c : ascii) : ascii :=
  let n := code c in
  if ((65 <=? n) && (n <=? 90))%N then ascii_of_N (n + 32) else c.

Definition ci (c : ascii) : ascii -> bool := fun a => Ascii.eqb (foldCase a) c.

(** A literal, written in lower case, under the [i] flag. *)
Fixpoint lit (s : string) : Regex :=
  match s with
  | EmptyString => REmpty
  | String c EmptyString => RChar (ci c)
  | String c s' => RSeq (RChar (ci c)) (lit s')
  end.

(** The negated class of the pattern: any code unit but white space, the
    double quote, the apostrophe, the comma and the closing brace. *)
Definition urlChar (c : ascii) : bool :=
  negb (isWhiteSpace c
        || (code c =? 34)%N || (code c =? 39)%N
        || (code c =? 44)%N || (code c =? 125)%N).

Definition imageExt : Regex :=
  RAlt (lit "png") (RAlt (lit "jpg") (RAlt (lit "jpeg") (RAlt (lit "gif") (lit "webp")))).

(** The pattern of the fallback, under the [i] flag: [http], an optional
    [s], [://], one or more code units of the class [urlChar] (greedy), a
    dot, and one of [png|jpg|jpeg|gif|webp] tried in that order. *)
Definition urlPattern : Regex :=
  RSeq (lit "http")
    (RSeq (RAlt (RChar (ci "s")) REmpty)
       (RSeq (lit "://")
          (RSeq (RPlusChar urlChar)
             (RSeq (RChar (ci ".")) imageExt)))).

(** *** [extractImageResult] *)

(** [v?.k && typeof v.k === 'string'] *)
Definition isStringProp (v : JsVal) (k : string) : Completion bool :=
  if Js.truthy (Js.optGet v k)
  then (x <- Js.get v k ;; Normal (Js.typeofString x))
  else Normal false.

(** [o.k || ''] *)
Definition fieldOrEmpty (o : JsVal) (k : string) : Completion JsVal :=
  x <- Js.get o k ;; Normal (Js.or x (JStr "")).

(** The strategies after the [message] one: cases 3 to 5 and the
    fallback. *)
Definition extractAfterMessage (agentResult : JsVal) : Completion ImageGenResult :=
  (* Case 3: result directly has data fields *)
  if Js.truthy (Js.optGet agentResult "data") then
    d1 <- Js.get agentResult "data" ;; f1 <- fieldOrEmpty d1 "image_url" ;;
    d2 <- Js.get agentResult "data" ;; f2 <- fieldOrEmpty d2 "enhanced_prompt" ;;
    d3 <- Js.get agentResult "data" ;; f3 <- fieldOrEmpty d3 "original_prompt" ;;
    d4 <- Js.get agentResult "data" ;; f4 <- fieldOrEmpty d4 "style" ;;
    d5 <- Js.get agentResult "data" ;; f5 <- fieldOrEmpty d5 "generation_metadata" ;;
    Normal (mkImageGenResult f1 f2 f3 f4 f5)
  else
  (* Case 4: result has fields directly *)
  if Js.truthy (Js.optGet agentResult "image_url") then
    f1 <- fieldOrEmpty agentResult "image_url" ;;
    f2 <- fieldOrEmpty agentResult "enhanced_prompt" ;;
    f3 <- fieldOrEmpty agentResult "original_prompt" ;;
    f4 <- fieldOrEmpty agentResult "style" ;;
    f5 <- fieldOrEmpty agentResult "generation_metadata" ;;
    Normal (mkImageGenResult f1 f2 f3 f4 f5)
  else
  (* Case 5: try parsing the entire result as text *)
  if Js.typeofString agentResult then parseAgentTextResponse agentResult
  else
  (* Fallback: try to find image_url anywhere in the response *)
  match stringify (Js.or agentResult (JObj [])) with
  | None => Throw TypeError
  | Some str =>
      match search urlPattern str with
      | Some url =>
          Normal (mkImageGenResult
                    (JStr url)
                    (Js.or (Js.optGet agentResult "enhanced_prompt")
                           (Js.or (Js.optGet agentResult "summary") (JStr "")))
                    (Js.or (Js.optGet agentResult "original_prompt") (JStr ""))
                    (Js.or (Js.optGet agentResult "style") (JStr ""))
                    (JStr ""))
      | None => Normal emptyResult
      end
  end.

Definition extractImageResult (agentResult : JsVal) : Completion ImageGenResult :=
  (* Case 1: result is a text string with key-value pairs *)
  isText <- isStringProp agentResult "text" ;;
  if isText then (t <- Js.get agentResult "text" ;; parseAgentTextResponse t)
  else
  (* Case 2: result has message as text *)
  isMessage <- isStringProp agentResult "message" ;;
  fromMessage <- (if isMessage
                  then (m <- Js.get agentResult "message" ;;
                        parsed <- parseAgentTextResponse m ;;
                        Normal (if Js.truthy (image_url parsed) then Some parsed else None))
                  else Normal None) ;;
  match fromMessage with
  | Some parsed => Normal parsed
  | None => extractAfterMessage agentResult
  end.

(** *** [handleGenerate] *)

Record HistoryItem : Type := mkHistoryItem {
  item_id : string;
  item_prompt : string;
  item_style : string;
  item_size : string;
  item_quality : string;
  item_result : option ImageGenResult;
  item_timestamp : Z
}.

(** The React state the handler reads and writes. *)
Record State : Type := mkState {
  prompt : string;
  params : GenerationParams;
  loading : bool;
  error : JsVal;
  copied : bool;
  currentResult : option ImageGenResult;
  history : list HistoryItem;
  activeHistoryId : option string
}.

(** [result.success && result?.response?.status === 'success'] *)
Definition isSuccess (result : JsVal) : Completion bool :=
  ok <- Js.get result "success" ;;
  if Js.truthy ok
  then Normal (Js.strictEqStr (Js.optGet (Js.optGet result "response") "status") "success")
  else Normal false.

(** One of the two fallbacks of the handler: when [image_url] is still
    empty and [source] is truthy, parse [source]; a parse with an
    [image_url] sets [image_url] and fills [enhanced_prompt] and [style]
    where they are empty. *)
Definition fallbackFrom (source : Completion JsVal) (sourceTruthy : bool)
           (imageData : ImageGenResult) : Completion ImageGenResult :=
  if negb (Js.truthy (image_url imageData)) && sourceTruthy then
    src <- source ;;
    from <- parseAgentTextResponse src ;;
    if Js.truthy (image_url from) then
      let d1 := set_image_url (image_url from) imageData in
      let d2 := if negb (Js.truthy (enhanced_prompt d1))
                then set_enhanced_prompt (enhanced_prompt from) d1 else d1 in
      let d3 := if negb (Js.truthy (style d2))
                then set_style (style from) d2 else d2 in
      Normal d3
    else Normal imageData
  else Normal imageData.

(** The record built on the success path, from the call result and the
    prompt of the form. *)
Definition resolveImageData (result : JsVal) (promptText : string) : Completion ImageGenResult :=
  let agentResult := Js.optGet (Js.optGet result "response") "result" in
  imageData <- extractImageResult agentResult ;;
  (* response.message, if a text response *)
  imageData <- fallbackFrom (resp <- Js.get result "response" ;; Js.get resp "message")
                 (Js.truthy (Js.optGet (Js.optGet result "response") "message"))
                 imageData ;;
  (* raw_response as final fallback *)
  imageData <- fallbackFrom (Js.get result "raw_response")
                 (Js.truthy (Js.optGet result "raw_response"))
                 imageData ;;
  Normal (if negb (Js.truthy (original_prompt imageData))
          then set_original_prompt (JStr (trim promptText)) imageData
          else imageData).

(** The entry built on a successful generation; [nowId] and [nowTs] are
    the two readings of [Date.now()]. *)
Definition newHistoryItem (promptText : string) (ps : GenerationParams)
           (imageData : ImageGenResult) (nowId nowTs : Z) : HistoryItem :=
  mkHistoryItem (genId nowId) (trim promptText)
    (p_style ps) (p_size ps) (p_quality ps) (Some imageData) nowTs.

Definition failureMessage : JsVal := JStr "Failed to generate image. Please try again.".
Definition unexpectedMessage : JsVal := JStr "An unexpected error occurred. Please try again.".

(** The part of the handler after the call has settled.  [promptText]
    and [ps] are the values captured when the handler started; [call] is
    the outcome of [callAIAgent]; [nowId] and [nowTs] are the two clock
    readings; [st] is the state the setters act on. *)
Definition settle (promptText : string) (ps : GenerationParams)
           (call : Completion JsVal) (nowId nowTs : Z) (st : State) : State :=
  let attempt : Completion State :=
    result <- call ;;
    ok <- isSuccess result ;;
    if ok then
      imageData <- resolveImageData result promptText ;;
      let newItem := newHistoryItem promptText ps imageData nowId nowTs in
      Normal (mkState (prompt st) (params st) (loading st) (error st) (copied st)
                (Some imageData)
                (historyUpdater newItem (history st))
                (Some (item_id newItem)))
    else
      Normal (mkState (prompt st) (params st) (loading st)
                (Js.coalesce (Js.optGet (Js.optGet result "response") "message")
                   (Js.coalesce (Js.optGet result "error") failureMessage))
                (copied st) (currentResult st) (history st) (activeHistoryId st))
  in
  let st' := match attempt with
             | Normal s => s
             | Throw _ =>
                 mkState (prompt st) (params st) (loading st) unexpectedMessage
                   (copied st) (currentResult st) (history st) (activeHistoryId st)
             end in
  mkState (prompt st') (params st') false (error st') (copied st')
    (currentResult st') (history st') (activeHistoryId st').

(** The handler when nothing else happens while the call is pending. *)
Definition handleGenerate (call : Completion JsVal) (nowId nowTs : Z) (st : State) : State :=
  if negb (Js.truthy (JStr (trim (prompt st)))) || loading st then st
  else
    let started := mkState (prompt st) (params st) true JNull false None
                     (history st) (activeHistoryId st) in
    settle (prompt st) (params st) call nowId nowTs started.

End ImageMode.

(* ------------------------------------------------------------------ *)
(** ** The prompt-enhancement page *)

Module EnhanceMode.

Import JsString.

Record ImageGenData : Type := mkImageGenData {
  enhanced_prompt : JsVal;
  style_suggestion : JsVal;
  size_recommendation : JsVal;
  quality_notes : JsVal;
  original_prompt : JsVal
}.

(** [nested?.k ?? result?.k ?? ''] *)
Definition pick (nested result : JsVal) (k : string) : JsVal :=
  Js.coalesce (Js.optGet nested k) (Js.coalesce (Js.optGet result k) (JStr "")).

Definition extractImageData (result : JsVal) : ImageGenData * JsVal :=
  let summary := Js.coalesce (Js.optGet result "summary") (JStr "") in
  let nested := Js.optGet result "data" in
  let data := mkImageGenData
                (pick nested result "enhanced_prompt")
                (pick nested result "style_suggestion")
                (pick nested result "size_recommendation")
                (pick nested result "quality_notes")
                (pick nested result "original_prompt") in
  (data, summary).

Record HistoryItem : Type := mkHistoryItem {
  item_id : string;
  item_prompt : string;
  item_style : string;
  item_size : string;
  item_quality : string;
  item_result : option ImageGenData;
  item_summary : JsVal;
  item_timestamp : Z
}.

(** The entry built on a successful generation. *)
Definition newHistoryItem (promptText : string) (ps : GenerationParams)
           (agentResult : JsVal) (nowId nowTs : Z) : HistoryItem :=
  let '(data, summary) := extractImageData agentResult in
  mkHistoryItem (genId nowId) (trim promptText)
    (p_style ps) (p_size ps) (p_quality ps) (Some data) summary nowTs.

(** The history after a successful generation. *)
Definition recordGeneration (promptText : string) (ps : GenerationParams)
           (agentResult : JsVal) (nowId nowTs : Z)
           (prev : list HistoryItem) : list HistoryItem :=
  historyUpdater (newHistoryItem promptText ps agentResult nowId nowTs) prev.

End EnhanceMode.

(* ------------------------------------------------------------------ *)
(** ** The key-value parser as the specification words it *)

Module KeyValueSpec.

Import JsString.

(** The first colon separates key from value: the text before it and the
    text after it, or nothing for a line without a colon. *)
Fixpoint cutAtColon (line : string) : option (string * string) :=
  match line with
  | EmptyString => None
  | String c rest =>
      if Ascii.eqb c ":" then Some (EmptyString, rest)
      else match cutAtColon rest with
           | Some (k, v) => Some (String c k, v)
           | None => None
           end
  end.

(** Keys are lower-cased, trimmed, and internal white-space runs replaced
    with a single underscore. *)
Definition normalizeKey (k : string) : string :=
  replaceWsRuns (trim (toLowerCase k)).

(** The key-value pairs of the lines that have a colon, in order. *)
Definition pairsOf (lines : list string) : list (string * string) :=
  flat_map (fun line => match cutAtColon line with
                        | Some (k, v) => [(normalizeKey k, trim v)]
                        | None => []
                        end) lines.

(** The value a field ends up with: that of the last pair carrying its
    name, and the empty string when there is none. *)
Definition fieldOf (name : string) (pairs : list (string * string)) : JsVal :=
  JStr (last (map snd (filter (fun kv => fst kv =? name) pairs)) "").

(** [parseKeyValueText] in the words of the specification, to be compared
    with [ImageMode.parseAgentTextResponse]. *)
Definition parseKeyValueText (text : string) : ImageMode.ImageGenResult :=
  let pairs := pairsOf (split LF text) in
  ImageMode.mkImageGenResult
    (fieldOf "image_url" pairs)
    (fieldOf "enhanced_prompt" pairs)
    (fieldOf "original_prompt" pairs)
    (fieldOf "style" pairs)
    (fieldOf "generation_metadata" pairs).

End KeyValueSpec.

(* ------------------------------------------------------------------ *)
(** ** What the URL pattern denotes *)

Module UrlSpec.

Import JsString ImageMode.

(** The strings a regular expression denotes. *)
Inductive Matches : Regex -> string -> Prop :=
| MEmpty : Matches REmpty ""
| MChar p c : p c = true -> Matches (RChar p) (String c "")
| MSeq r1 r2 a b : Matches r1 a -> Matches r2 b -> Matches (RSeq r1 r2) (a ++ b)
| MAltL r1 r2 a : Matches r1 a -> Matches (RAlt r1 r2) a
| MAltR r1 r2 a : Matches r2 a -> Matches (RAlt r1 r2) a
| MPlus p c s :
    p c = true ->
    (forall d, In d (list_ascii_of_string s) -> p d = true) ->
    Matches (RPlusChar p) (String c s).

(** [u] is the leftmost substring of [s] with the property [P]. *)
Definition Leftmost (P : string -> Prop) (s u : string) : Prop :=
  exists pre post,
    s = pre ++ u ++ post
    /\ P u
    /\ forall pre' u' post',
        s = pre' ++ u' ++ post' -> P u' -> String.length pre <= String.length pre'.

Definition NoSubstring (P : string -> Prop) (s : string) : Prop :=
  forall pre u post, s = pre ++ u ++ post -> ~ P u.

Fixpoint foldString (s : string) : string :=
  match s with
  | EmptyString => EmptyString
  | String c s' => String (foldCase c) (foldString s')
  end.

(** An http or https URL ending in one of the image extensions, letters
    compared without case: a scheme, [://], a non-empty body of code units
    of the class [urlChar], a dot and the extension. *)
Definition IsImageUrl (u : string) : Prop :=
  exists scheme body ext,
    u = scheme ++ "://" ++ body ++ "." ++ ext
    /\ (foldString scheme = "http" \/ foldString scheme = "https")
    /\ body <> ""
    /\ (forall c, In c (list_ascii_of_string body) -> urlChar c = true)
    /\ In (foldString ext) ["png"; "jpg"; "jpeg"; "gif"; "webp"].

End UrlSpec.

(* ------------------------------------------------------------------ *)
(** ** Sample responses *)

Module Samples.

Import ImageMode.

(** A response whose [text] is the empty string, with a top-level URL. *)
Definition emptyTextWithUrl : JsVal :=
  JObj [("text", JStr ""); ("image_url", JStr "http://a.com/i.png")].

(** A response with [text], [message], [data] and a top-level URL at once. *)
Definition everything : JsVal :=
  JObj [("text", JStr "style: oil");
        ("message", JStr "image_url: http://m.com/m.png");
        ("data", JObj [("image_url", JStr "http://d.com/d.png")]);
        ("image_url", JStr "http://t.com/t.png")].

(** A response with a parseable [message] and [data], without [text]. *)
Definition messageAndData : JsVal :=
  JObj [("message", JStr "image_url: http://m.com/m.png");
        ("data", JObj [("image_url", JStr "http://d.com/d.png")])].

(** A response whose [message] has no [image_url] line, with [data]. *)
Definition plainMessageAndData : JsVal :=
  JObj [("message", JStr "style: oil");
        ("data", JObj [("image_url", JStr "http://d.com/d.png")])].

(** The example of the URL fallback. *)
Definition note : JsVal :=
  JObj [("note", JStr "see https://x.com/pic.PNG for result")].

Definition resultOfUrl (u : string) : ImageGenResult :=
  mkImageGenResult (JStr u) (JStr "") (JStr "") (JStr "") (JStr "").

(** Two entries created at the same clock reading for different prompts. *)
Definition catEntry : HistoryItem :=
  newHistoryItem "a cat" (mkParams "Realistic" "Square (1024x1024)" "HD")
    emptyResult 1700000000000 1700000000000.

Definition dogEntry : HistoryItem :=
  newHistoryItem "a dog" (mkParams "Realistic" "Square (1024x1024)" "HD")
    emptyResult 1700000000000 1700000000000.

(** A page state ready to generate, and an agent reply whose [result] has
    only a style while its [message] carries the URL. *)
Definition readyState : State :=
  mkState "  a cat " (mkParams "Realistic" "Square (1024x1024)" "HD")
    false JNull false None [] None.

Definition replyWithMessage : JsVal :=
  JObj [("success", JBool true);
        ("response",
         JObj [("status", JStr "success");
               ("result", JObj [("data", JObj [("style", JStr "oil")])]);
               ("message",
                JStr ("image_url: http://m.com/m.png"
                        ++ String JsString.LF "style: ink"))]);
        ("raw_response", JStr "image_url: http://r.com/r.png")].

End Samples.

(* ------------------------------------------------------------------ *)
(** ** The other handlers of the image-result page *)

Module ImagePage.

Import JsString ImageMode.

Definition MAX_CHARS : nat := 500.

(** A call to the agent that has not settled yet, with the prompt and the
    parameters its handler captured. *)
Record Request : Type := mkRequest {
  req_prompt : string;
  req_params : GenerationParams
}.

(** The state of [ImageMode], the flag of the history side bar, which
    [handleHistorySelect] writes, and the calls in flight. *)
Record Page : Type := mkPage {
  core : State;
  sidebarOpen : bool;
  inflight : list Request
}.

(** The values given to [useState]. *)
Definition initialPage : Page :=
  mkPage (mkState "" (mkParams "Realistic" "Square (1024x1024)" "HD")
            false JNull false None [] None)
         true [].

Definition onCore (f : State -> State) (p : Page) : Page :=
  mkPage (f (core p)) (sidebarOpen p) (inflight p).

(** [onChange] of the prompt field: a value longer than [MAX_CHARS] is
    dropped. *)
Definition handlePromptChange (val : string) (p : Page) : Page :=
  if (String.length val <=? MAX_CHARS)%nat
  then onCore (fun st => mkState val (params st) (loading st) (error st) (copied st)
                           (currentResult st) (history st) (activeHistoryId st)) p
  else p.

(** [handleGenerate] up to its [await]: the guard, the four setters, and
    the call sent with the prompt and parameters of this render. *)
Definition startGenerate (p : Page) : Page :=
  let st := core p in
  if negb (Js.truthy (JStr (trim (prompt st)))) || loading st then p
  else mkPage (mkState (prompt st) (params st) true JNull false None
                 (history st) (activeHistoryId st))
              (sidebarOpen p)
              (inflight p ++ [mkRequest (prompt st) (params st)])%list.

(** [handleGenerate] after its [await], for the call at position [index]
    among those in flight. *)
Definition settleRequest (index : nat) (call : Completion JsVal) (nowId nowTs : Z)
           (p : Page) : Page :=
  match nth_error (inflight p) index with
  | Some rq =>
      mkPage (settle (req_prompt rq) (req_params rq) call nowId nowTs (core p))
             (sidebarOpen p)
             (firstn index (inflight p) ++ skipn (S index) (inflight p))%list
  | None => p
  end.

(** [innerWidth] is [window.innerWidth], or nothing where [window] is not
    defined. *)
Definition handleHistorySelect (item : HistoryItem) (innerWidth : option Z)
           (p : Page) : Page :=
  let st := core p in
  let st' := mkState (item_prompt item)
               (mkParams (item_style item) (item_size item) (item_quality item))
               (loading st) JNull false (item_result item) (history st)
               (Some (item_id item)) in
  mkPage st'
    (match innerWidth with
     | Some w => if (w <? 768)%Z then false else sidebarOpen p
     | None => sidebarOpen p
     end)
    (inflight p).

Definition handleClear (p : Page) : Page :=
  onCore (fun st => mkState "" (params st) (loading st) JNull false None
                      (history st) None) p.

(** The state part of [handleClearHistory]; the handler also removes the
    stored copy. *)
Definition handleClearHistory (p : Page) : Page :=
  onCore (fun st => mkState (prompt st) (params st) (loading st) (error st) (copied st)
                      (currentResult st) [] (activeHistoryId st)) p.

Definition handleRegenerate (p : Page) : Page :=
  if Js.truthy (JStr (trim (prompt (core p)))) then startGenerate p else p.

(** [e.key === 'Enter' && (e.metaKey || e.ctrlKey)] *)
Definition handleKeyDown (key : string) (metaKey ctrlKey : bool) (p : Page) : Page :=
  if (key =? "Enter") && (metaKey || ctrlKey) then startGenerate p else p.

(** [success] is what [copyToClipboard] reports. *)
Definition handleCopy (success : bool) (p : Page) : Page :=
  match currentResult (core p) with
  | Some r =>
      if Js.truthy (enhanced_prompt r) && success
      then onCore (fun st => mkState (prompt st) (params st) (loading st) (error st) true
                               (currentResult st) (history st) (activeHistoryId st)) p
      else p
  | None => p
  end.

(** The timer set by [handleCopy]. *)
Definition copiedTimeout (p : Page) : Page :=
  onCore (fun st => mkState (prompt st) (params st) (loading st) (error st) false
                      (currentResult st) (history st) (activeHistoryId st)) p.

(** What the user and the environment can do to the page.  A click on a
    history entry carries the position of the entry in the list shown; a
    settled call carries its position among the calls in flight, its
    outcome and the two clock readings. *)
Inductive Event : Type :=
| PromptTyped (val : string)
| GenerateClicked
| RegenerateClicked
| KeyPressed (key : string) (metaKey ctrlKey : bool)
| CallSettled (index : nat) (call : Completion JsVal) (nowId nowTs : Z)
| HistoryClicked (index : nat) (innerWidth : option Z)
| ClearClicked
| ClearHistoryClicked
| CopyClicked (success : bool)
| CopyTimerFired.

Definition step (p : Page) (ev : Event) : Page :=
  match ev with
  | PromptTyped val => handlePromptChange val p
  | GenerateClicked => startGenerate p
  | RegenerateClicked => handleRegenerate p
  | KeyPressed key metaKey ctrlKey => handleKeyDown key metaKey ctrlKey p
  | CallSettled index call nowId nowTs => settleRequest index call nowId nowTs p
  | HistoryClicked index innerWidth =>
      match nth_error (history (core p)) index with
      | Some item => handleHistorySelect item innerWidth p
      | None => p
      end
  | ClearClicked => handleClear p
  | ClearHistoryClicked => handleClearHistory p
  | CopyClicked success => handleCopy success p
  | CopyTimerFired => copiedTimeout p
  end.

Definition run (events : list Event) : Page := fold_left step events initialPage.

Definition WellFormedRequest (rq : Request) : Prop :=
  String.length (req_prompt rq) <= MAX_CHARS /\ trim (req_prompt rq) <> "".

(** What every entry the page records looks like. *)
Definition WellFormedItem (item : HistoryItem) : Prop :=
  String.length (item_prompt item) <= MAX_CHARS
  /\ item_prompt item <> ""
  /\ (exists now, item_id item = genId now)
  /\ exists d, item_result item = Some d /\ Js.truthy (original_prompt d) = true.

(** The invariant of the page between two events. *)
Definition PageInvariant (p : Page) : Prop :=
  let st := core p in
  String.length (prompt st) <= MAX_CHARS
  /\ List.length (inflight p) <= 1
  /\ (loading st = true <-> inflight p <> [])
  /\ Forall WellFormedRequest (inflight p)
  /\ List.length (history st) <= 50
  /\ Forall WellFormedItem (history st)
  /\ (forall d, currentResult st = Some d -> Js.truthy (original_prompt d) = true).

End ImagePage.

(* ------------------------------------------------------------------ *)
(** ** The handlers of the prompt-enhancement page *)

Module EnhancePage.

Import JsString EnhanceMode.

Definition MAX_CHARS : nat := 500.
Definition AGENT_ID : string := "69897afeebfd819b4b7010cd".

(** The React state the handlers read and write. *)
Record State : Type := mkState {
  prompt : string;
  params : GenerationParams;
  loading : bool;
  error : JsVal;
  currentResult : option ImageGenData;
  currentSummary : JsVal;
  history : list HistoryItem;
  activeHistoryId : option string;
  copied : bool;
  activeAgentId : option string
}.

Record Request : Type := mkRequest {
  req_prompt : string;
  req_params : GenerationParams
}.

Record Page : Type := mkPage {
  core : State;
  sidebarOpen : bool;
  inflight : list Request
}.

Definition initialPage : Page :=
  mkPage (mkState "" (mkParams "Realistic" "Square (1:1)" "HD") false JNull None
            (JStr "") [] None false None)
         true [].

Definition onCore (f : State -> State) (p : Page) : Page :=
  mkPage (f (core p)) (sidebarOpen p) (inflight p).

Definition handlePromptChange (val : string) (p : Page) : Page :=
  if (String.length val <=? MAX_CHARS)%nat
  then onCore (fun st => mkState val (params st) (loading st) (error st)
                           (currentResult st) (currentSummary st) (history st)
                           (activeHistoryId st) (copied st) (activeAgentId st)) p
  else p.

(** [handleGenerate] up to its [await]; unlike the image page it leaves the
    result on display. *)
Definition startGenerate (p : Page) : Page :=
  let st := core p in
  if negb (Js.truthy (JStr (trim (prompt st)))) || loading st then p
  else mkPage (mkState (prompt st) (params st) true JNull (currentResult st)
                 (currentSummary st) (history st) (activeHistoryId st) false
                 (Some AGENT_ID))
              (sidebarOpen p)
              (inflight p ++ [mkRequest (prompt st) (params st)])%list.

Definition failureMessage : JsVal :=
  JStr "Failed to generate enhanced prompt. Please try again.".
Definition unexpectedMessage : JsVal :=
  JStr "An unexpected error occurred. Please try again.".

(** [handleGenerate] after its [await].  The test of the reply is the one
    of the image page. *)
Definition settle (promptText : string) (ps : GenerationParams)
           (call : Completion JsVal) (nowId nowTs : Z) (st : State) : State :=
  let attempt : Completion State :=
    result <- call ;;
    ok <- ImageMode.isSuccess result ;;
    if ok then
      let agentResult := Js.optGet (Js.optGet result "response") "result" in
      let '(data, summary) := extractImageData agentResult in
      let newItem := newHistoryItem promptText ps agentResult nowId nowTs in
      Normal (mkState (prompt st) (params st) (loading st) (error st)
                (Some data) summary
                (historyUpdater newItem (history st))
                (Some (item_id newItem)) (copied st) (activeAgentId st))
    else
      Normal (mkState (prompt st) (params st) (loading st)
                (Js.coalesce (Js.optGet (Js.optGet result "response") "message")
                   (Js.coalesce (Js.optGet result "error") failureMessage))
                (currentResult st) (currentSummary st) (history st)
                (activeHistoryId st) (copied st) (activeAgentId st))
  in
  let st' := match attempt with
             | Normal s => s
             | Throw _ =>
                 mkState (prompt st) (params st) (loading st) unexpectedMessage
                   (currentResult st) (currentSummary st) (history st)
                   (activeHistoryId st) (copied st) (activeAgentId st)
             end in
  mkState (prompt st') (params st') false (error st') (currentResult st')
    (currentSummary st') (history st') (activeHistoryId st') (copied st') None.

Definition settleRequest (index : nat) (call : Completion JsVal) (nowId nowTs : Z)
           (p : Page) : Page :=
  match nth_error (inflight p) index with
  | Some rq =>
      mkPage (settle (req_prompt rq) (req_params rq) call nowId nowTs (core p))
             (sidebarOpen p)
             (firstn index (inflight p) ++ skipn (S index) (inflight p))%list
  | None => p
  end.

Definition handleHistorySelect (item : HistoryItem) (innerWidth : option Z)
           (p : Page) : Page :=
  let st := core p in
  let st' := mkState (item_prompt item)
               (mkParams (item_style item) (item_size item) (item_quality item))
               (loading st) JNull (item_result item) (item_summary item)
               (history st) (Some (item_id item)) false (activeAgentId st) in
  mkPage st'
    (match innerWidth with
     | Some w => if (w <? 768)%Z then false else sidebarOpen p
     | None => sidebarOpen p
     end)
    (inflight p).

Definition handleClear (p : Page) : Page :=
  onCore (fun st => mkState "" (params st) (loading st) JNull None (JStr "")
                      (history st) None false (activeAgentId st)) p.

Definition handleRegenerate (p : Page) : Page :=
  if Js.truthy (JStr (trim (prompt (core p)))) then startGenerate p else p.

Definition handleKeyDown (key : string) (metaKey ctrlKey : bool) (p : Page) : Page :=
  if (key =? "Enter") && (metaKey || ctrlKey) then startGenerate p else p.

Definition handleCopy (success : bool) (p : Page) : Page :=
  match currentResult (core p) with
  | Some r =>
      if Js.truthy (enhanced_prompt r) && success
      then onCore (fun st => mkState (prompt st) (params st) (loading st) (error st)
                               (currentResult st) (currentSummary st) (history st)
                               (activeHistoryId st) true (activeAgentId st)) p
      else p
  | None => p
  end.

Definition copiedTimeout (p : Page) : Page :=
  onCore (fun st => mkState (prompt st) (params st) (loading st) (error st)
                      (currentResult st) (currentSummary st) (history st)
                      (activeHistoryId st) false (activeAgentId st)) p.

Inductive Event : Type :=
| PromptTyped (val : string)
| GenerateClicked
| RegenerateClicked
| KeyPressed (key : string) (metaKey ctrlKey : bool)
| CallSettled (index : nat) (call : Completion JsVal) (nowId nowTs : Z)
| HistoryClicked (index : nat) (innerWidth : option Z)
| ClearClicked
| CopyClicked (success : bool)
| CopyTimerFired.

Definition step (p : Page) (ev : Event) : Page :=
  match ev with
  | PromptTyped val => handlePromptChange val p
  | GenerateClicked => startGenerate p
  | RegenerateClicked => handleRegenerate p
  | KeyPressed key metaKey ctrlKey => handleKeyDown key metaKey ctrlKey p
  | CallSettled index call nowId nowTs => settleRequest index call nowId nowTs p
  | HistoryClicked index innerWidth =>
      match nth_error (history (core p)) index with
      | Some item => handleHistorySelect item innerWidth p
      | None => p
      end
  | ClearClicked => handleClear p
  | CopyClicked success => handleCopy success p
  | CopyTimerFired => copiedTimeout p
  end.

Definition run (events : list Event) : Page := fold_left step events initialPage.

Definition WellFormedRequest (rq : Request) : Prop :=
  String.length (req_prompt rq) <= MAX_CHARS /\ trim (req_prompt rq) <> "".

(** No field of the data is [undefined] or [null]. *)
Definition DataPresent (d : ImageGenData) : Prop :=
  Js.isNullish (enhanced_prompt d) = false
  /\ Js.isNullish (style_suggestion d) = false
  /\ Js.isNullish (size_recommendation d) = false
  /\ Js.isNullish (quality_notes d) = false
  /\ Js.isNullish (original_prompt d) = false.

Definition WellFormedItem (item : HistoryItem) : Prop :=
  String.length (item_prompt item) <= MAX_CHARS
  /\ item_prompt item <> ""
  /\ (exists now, item_id item = genId now)
  /\ Js.isNullish (item_summary item) = false
  /\ exists d, item_result item = Some d /\ DataPresent d.

Definition PageInvariant (p : Page) : Prop :=
  let st := core p in
  String.length (prompt st) <= MAX_CHARS
  /\ List.length (inflight p) <= 1
  /\ (loading st = true <-> inflight p <> [])
  /\ (activeAgentId st = Some AGENT_ID <-> inflight p <> [])
  /\ Forall WellFormedRequest (inflight p)
  /\ List.length (history st) <= 50
  /\ Forall WellFormedItem (history st)
  /\ Js.isNullish (currentSummary st) = false
  /\ (forall d, currentResult st = Some d -> DataPresent d).

End EnhancePage.

(* ------------------------------------------------------------------ *)
(** ** The stored history of the image-result page *)

Module HistoryStore.

Import JsString ImageMode.

(** The entry of the browser store under [HISTORY_KEY].  Reading and writing
    raise when the store is not available; the effects catch that. *)
Record Storage : Type := mkStorage {
  content : option string;
  readable : bool;
  writable : bool
}.

Definition getItem (sto : Storage) : Completion (option string) :=
  if readable sto then Normal (content sto) else Throw TypeError.

Definition setItem (value : string) (sto : Storage) : Completion Storage :=
  if writable sto then Normal (mkStorage (Some value) (readable sto) (writable sto))
  else Throw TypeError.

(** The history state holds either entries the page has built or the array
    read back from the store, which nothing checks. *)
Inductive HistoryValue : Type :=
| Items (entries : list HistoryItem)
| Parsed (elements : list JsVal).

(** The part of the state the three effects read and write. *)
Record StoreState : Type := mkStoreState {
  s_prompt : string;
  s_params : GenerationParams;
  s_currentResult : option ImageGenResult;
  s_activeHistoryId : option string;
  s_history : HistoryValue;
  s_showSampleData : bool
}.

Definition initialStore : StoreState :=
  mkStoreState "" (mkParams "Realistic" "Square (1024x1024)" "HD") None None (Items []) false.

(** The objects [JSON.stringify] sees, with their properties in the order
    of the object literals. *)
Definition encodeResult (r : ImageGenResult) : JsVal :=
  JObj [("image_url", image_url r);
        ("enhanced_prompt", enhanced_prompt r);
        ("original_prompt", original_prompt r);
        ("style", style r);
        ("generation_metadata", generation_metadata r)].

Definition encodeItem (item : HistoryItem) : JsVal :=
  JObj [("id", JStr (item_id item));
        ("prompt", JStr (item_prompt item));
        ("style", JStr (item_style item));
        ("size", JStr (item_size item));
        ("quality", JStr (item_quality item));
        ("result", match item_result item with
                   | Some r => encodeResult r
                   | None => JNull
                   end);
        ("timestamp", JNum (item_timestamp item))].

Definition historyJson (h : HistoryValue) : JsVal :=
  match h with
  | Items entries => JArr (map encodeItem entries)
  | Parsed elements => JArr elements
  end.

(** [SAMPLE_HISTORY]; [t1] and [t2] are the two clock readings taken when
    the module is loaded. *)
Definition SAMPLE_HISTORY (t1 t2 : Z) : list HistoryItem :=
  [mkHistoryItem "sample-1" "A cute cat sitting on a windowsill watching rain"
     "Realistic" "Square (1024x1024)" "HD"
     (Some (mkImageGenResult
              (JStr "https://oaidalleapiprodscus.blob.core.windows.net/private/org-xwOg6cOaVRpTtrLcPKzvJpMI/user-mem_cmio6ucfv070k0srh69fm65cy/img-8e9avs2NIeWaIvTmKKJTtoJw.png")
              (JStr "A cute cat with soft fur, sitting on a cozy windowsill, gazing outside at raindrops gently falling against the window, warm indoor lighting, peaceful and heartwarming mood")
              (JStr "A cute cat sitting on a windowsill watching rain")
              (JStr "Cozy, heartwarming, realistic with soft lighting")
              (JStr "DALL-E, enhanced for cuteness and mood")))
     (t1 - 3600000);
   mkHistoryItem "sample-2" "A futuristic city with neon lights at night"
     "Cyberpunk" "Landscape (1792x1024)" "HD"
     (Some (mkImageGenResult
              (JStr "")
              (JStr "A sprawling futuristic cityscape at night, illuminated with vibrant neon lights in hues of blue, pink, and purple, flying cars with glowing underlights")
              (JStr "A futuristic city with neon lights at night")
              (JStr "Cyberpunk digital art with high contrast")
              (JStr "DALL-E, cyberpunk aesthetic")))
     (t2 - 7200000)].

Section Effects.

(** [JSON.parse], which is not part of the program. *)
Variable JSON_parse : string -> Completion JsVal.

Variables t1 t2 : Z.

Definition setHistory (h : HistoryValue) (st : StoreState) : StoreState :=
  mkStoreState (s_prompt st) (s_params st) (s_currentResult st) (s_activeHistoryId st)
    h (s_showSampleData st).

(** The array in the store, when the store can be read and holds one. *)
Definition storedArray (sto : Storage) : Completion (option (option (list JsVal))) :=
  stored <- getItem sto ;;
  match stored with
  | Some text =>
      if Js.truthy (JStr text) then
        parsed <- JSON_parse text ;;
        Normal (Some (match parsed with
                      | JArr elements => Some elements
                      | _ => None
                      end))
      else Normal None
  | None => Normal None
  end.

(** The effect that loads the history on mount: the state updates it
    queues. *)
Definition loadEffect (sto : Storage) : list (StoreState -> StoreState) :=
  match storedArray sto with
  | Normal (Some (Some elements)) => [setHistory (Parsed elements)]
  | _ => []
  end.

(** The effect that persists the history, for the [history] and
    [showSampleData] of a render. *)
Definition persistEffect (h : HistoryValue) (showSampleData : bool)
           (sto : Storage) : Storage :=
  if negb showSampleData then
    match setItem (match stringify (historyJson h) with
                   | Some text => text
                   | None => "undefined"
                   end) sto with
    | Normal sto' => sto'
    | Throw _ => sto
    end
  else sto.

(** The effect of the demo switch, for the [showSampleData] of a render. *)
Definition toggleEffect (showSampleData : bool) (sto : Storage)
  : list (StoreState -> StoreState) :=
  if showSampleData then
    setHistory (Items (SAMPLE_HISTORY t1 t2))
    :: match SAMPLE_HISTORY t1 t2 with
       | first :: _ =>
           [fun st => mkStoreState (item_prompt first)
                        (mkParams (item_style first) (item_size first) (item_quality first))
                        (item_result first) (Some (item_id first))
                        (s_history st) (s_showSampleData st)]
       | [] => []
       end
  else
    [setHistory (match storedArray sto with
                 | Normal (Some (Some elements)) => Parsed elements
                 | _ => Items []
                 end);
     fun st => mkStoreState "" (s_params st) None None (s_history st) (s_showSampleData st)].

Definition applyAll (updates : list (StoreState -> StoreState)) (st : StoreState)
  : StoreState :=
  fold_left (fun s u => u s) updates st.

(** Mounting the page: the three effects run in the order they are
    declared, each with the values of the first render; then the queued
    updates apply in order; the history was set, so the persisting effect
    runs again with the new render. *)
Definition mount (sto : Storage) : StoreState * Storage :=
  let st0 := initialStore in
  let loads := loadEffect sto in
  let sto1 := persistEffect (s_history st0) (s_showSampleData st0) sto in
  let toggles := toggleEffect (s_showSampleData st0) sto1 in
  let st1 := applyAll (loads ++ toggles) st0 in
  (st1, persistEffect (s_history st1) (s_showSampleData st1) sto1).

(** The demo switch set to [v]: a render with the new flag, after which the
    persisting effect and the switch effect run in that order, the updates
    apply, and the persisting effect runs again for the history set. *)
Definition setShowSampleData (v : bool) (w : StoreState * Storage)
  : StoreState * Storage :=
  let '(st, sto) := w in
  if Bool.eqb v (s_showSampleData st) then w
  else
    let st0 := mkStoreState (s_prompt st) (s_params st) (s_currentResult st)
                 (s_activeHistoryId st) (s_history st) v in
    let sto1 := persistEffect (s_history st0) v sto in
    let st1 := applyAll (toggleEffect v sto1) st0 in
    (st1, persistEffect (s_history st1) v sto1).

End Effects.

End HistoryStore.

(* ------------------------------------------------------------------ *)
(** ** Vocabulary of the further properties *)

Module Shape.

Import JsString ImageMode.

(** All five fields are strings with the property [Q]. *)
Definition FieldsSatisfy (Q : string -> Prop) (r : ImageGenResult) : Prop :=
  exists a b c d e,
    r = mkImageGenResult (JStr a) (JStr b) (JStr c) (JStr d) (JStr e)
    /\ Q a /\ Q b /\ Q c /\ Q d /\ Q e.

(** A field that is there: the empty string or a truthy value, never
    [undefined], [null], [false] or zero. *)
Definition Present (v : JsVal) : Prop := v = JStr "" \/ Js.truthy v = true.

Definition AllPresent (r : ImageGenResult) : Prop :=
  Present (image_url r) /\ Present (enhanced_prompt r) /\ Present (original_prompt r)
  /\ Present (style r) /\ Present (generation_metadata r).

(** A string as [trim] leaves it, on one line. *)
Definition TrimmedLine (v : string) : Prop :=
  trim v = v /\ indexOf LF v = (-1)%Z.

Definition CR : ascii := ascii_of_N 13.

(** The text with Windows line ends: a carriage return before every line
    feed. *)
Fixpoint crlf (s : string) : string :=
  match s with
  | EmptyString => EmptyString
  | String c s' =>
      if Ascii.eqb c LF then String CR (String LF (crlf s'))
      else String c (crlf s')
  end.

(** The lines of such a text: every line but the last ends in a carriage
    return. *)
Fixpoint withCR (lines : list string) : list string :=
  match lines with
  | [] => []
  | [l] => [l]
  | l :: rest => (l ++ String CR "") :: withCR rest
  end.

(** [x] is a substring of [s]. *)
Definition Contains (s x : string) : Prop := exists a b, s = a ++ x ++ b.

(** The string [v] is held somewhere in [raw]: as [raw] itself, as an
    element of an array or as the value of a property, at any depth. *)
Inductive Holds : JsVal -> string -> Prop :=
| HoldsHere v : Holds (JStr v) v
| HoldsInArray items x v : In x items -> Holds x v -> Holds (JArr items) v
| HoldsInObject props k x v : In (k, x) props -> Holds x v -> Holds (JObj props) v.

Definition isLowerLetter (c : ascii) : bool :=
  ((97 <=? code c) && (code c <=? 122))%N.

(** The words of a string: its maximal runs of code units that are not
    white space, in order. *)
Fixpoint words (s : string) : list string :=
  match s with
  | EmptyString => []
  | String c s' =>
      if isWhiteSpace c then words s'
      else match s' with
           | EmptyString => [String c EmptyString]
           | String c' _ =>
               if isWhiteSpace c' then String c EmptyString :: words s'
               else match words s' with
                    | w :: rest => String c w :: rest
                    | [] => [String c EmptyString]
                    end
           end
  end.

Fixpoint joinWith (sep : string) (l : list string) : string :=
  match l with
  | [] => ""
  | [w] => w
  | w :: rest => w ++ sep ++ joinWith sep rest
  end.

Definition startsWithWhiteSpace (s : string) : bool :=
  match s with
  | String c _ => isWhiteSpace c
  | EmptyString => false
  end.

End Shape.

(* ================================================================== *)
(** * Properties *)

Import JsString ImageMode.

(** ** The primitives on small inputs *)

Example split_keeps_empty_lines :
  split LF ("a" ++ String LF (String LF "b")) = ["a"; ""; "b"].
Proof. reflexivity. Qed.

Example split_of_empty : split LF "" = [""].
Proof. reflexivity. Qed.

Example trim_both_ends :
  trim (String (ascii_of_N 9) "  a b  " ++ String (ascii_of_N 160) "") = "a b".
Proof. reflexivity. Qed.

Example replaceWsRuns_runs : replaceWsRuns "image   url x" = "image_url_x".
Proof. reflexivity. Qed.

Example toLowerCase_ascii : toLowerCase "Image_URL" = "image_url".
Proof. reflexivity. Qed.

Example indexOf_first : indexOf ":" "a:b:c" = 1%Z /\ indexOf ":" "abc" = (-1)%Z.
Proof. split; reflexivity. Qed.

Example substring_swaps : substring "hello" 3 1 = "el" /\ substringFrom "hello" 9 = "".
Proof. split; reflexivity. Qed.

Example slice_negative :
  JsArray.slice [1; 2; 3; 4; 5] (-3) (-1) = [3; 4] /\ JsArray.slice [1; 2; 3] 0 49 = [1; 2; 3].
Proof. split; reflexivity. Qed.

Example stringify_nested :
  stringify (JObj [("a", JArr [JNum (-5); JUndefined; JBool true]); ("b", JUndefined);
                   ("c", JStr (String LF "x"))])
  = Some ("{" ++ String DQ "a" ++ String DQ ":[-5,null,true],"
              ++ String DQ "c" ++ String DQ ":" ++ String DQ "\nx" ++ String DQ "}").
Proof. reflexivity. Qed.

Example search_backtracks :
  search urlPattern "at HTTP://a.com/x.png.gif.bak, or https://b/c.jpeg"
  = Some "HTTP://a.com/x.png.gif".
Proof. reflexivity. Qed.

(** ** Strings *)

Section StringFacts.

Lemma isWhiteSpace_toLowerCaseChar (c : ascii) :
  isWhiteSpace (toLowerCaseChar c) = isWhiteSpace c.
Proof.
  destruct c as [b0 b1 b2 b3 b4 b5 b6 b7].
  destruct b0, b1, b2, b3, b4, b5, b6, b7; reflexivity.
Qed.

Lemma toLowerCase_empty (s : string) :
  toLowerCase s = "" <-> s = "".
Proof. destruct s; simpl; split; intros H; congruence. Qed.

Lemma trimStart_toLowerCase (s : string) :
  trimStart (toLowerCase s) = toLowerCase (trimStart s).
Proof.
  induction s as [|c s IH]; simpl; [reflexivity|].
  rewrite isWhiteSpace_toLowerCaseChar.
  destruct (isWhiteSpace c); [exact IH | reflexivity].
Qed.

Lemma trimEnd_toLowerCase (s : string) :
  trimEnd (toLowerCase s) = toLowerCase (trimEnd s).
Proof.
  induction s as [|c s IH]; simpl; [reflexivity|].
  rewrite IH, isWhiteSpace_toLowerCaseChar.
  destruct (trimEnd s) as [|d t]; simpl.
  - destruct (isWhiteSpace c); reflexivity.
  - reflexivity.
Qed.

Lemma trim_toLowerCase (s : string) :
  trim (toLowerCase s) = toLowerCase (trim s).
Proof.
  unfold trim. now rewrite trimStart_toLowerCase, trimEnd_toLowerCase.
Qed.

Lemma substring_prefix (a b : string) :
  String.substring 0 (String.length a) (a ++ b) = a.
Proof.
  induction a as [|c a IH]; simpl.
  - destruct b; reflexivity.
  - now rewrite IH.
Qed.

Lemma substring_suffix (a b : string) :
  String.substring (String.length a) (String.length b) (a ++ b) = b.
Proof.
  induction a as [|c a IH]; simpl; [|exact IH].
  induction b as [|d b IHb]; simpl; [reflexivity | now rewrite IHb].
Qed.

Lemma length_append (a b : string) :
  String.length (a ++ b) = String.length a + String.length b.
Proof. induction a; simpl; congruence. Qed.

Lemma indexOf_lower (c : ascii) (s : string) : (-1 <= indexOf c s)%Z.
Proof.
  induction s as [|a s IH]; simpl; [lia|].
  destruct (Ascii.eqb a c); [lia|].
  destruct (indexOf c s <? 0)%Z eqn:E; lia.
Qed.

End StringFacts.

(** The index arithmetic of the loop body against the cut at the first
    colon. *)
Lemma cutAtColon_none (line : string) :
  KeyValueSpec.cutAtColon line = None <-> indexOf ":" line = (-1)%Z.
Proof.
  induction line as [|c rest IH]; simpl; [tauto|].
  destruct (Ascii.eqb c ":"); [split; discriminate|].
  pose proof (indexOf_lower ":" rest) as Hl.
  destruct (KeyValueSpec.cutAtColon rest) as [[k v]|].
  - split; [discriminate|]. intros H.
    destruct (indexOf ":" rest <? 0)%Z eqn:E.
    + assert (indexOf ":" rest = (-1)%Z) as H1 by lia.
      apply IH in H1. discriminate.
    + lia.
  - split; [intros _|reflexivity].
    destruct IH as [IH _]. rewrite (IH eq_refl). reflexivity.
Qed.

Lemma cutAtColon_some (line k v : string) :
  KeyValueSpec.cutAtColon line = Some (k, v) ->
  line = k ++ String ":" v /\ indexOf ":" line = Z.of_nat (String.length k).
Proof.
  revert k v. induction line as [|c rest IH]; simpl; intros k v H; [discriminate|].
  destruct (Ascii.eqb c ":") eqn:Ec.
  - apply Ascii.eqb_eq in Ec. inversion H; subst. simpl. split; reflexivity.
  - destruct (KeyValueSpec.cutAtColon rest) as [[k' v']|]; [|discriminate].
    inversion H; subst. destruct (IH k' v eq_refl) as [Hr Hi].
    split; [simpl; congruence|].
    rewrite Hi. destruct (Z.of_nat (String.length k') <? 0)%Z eqn:E; [lia|].
    simpl String.length. lia.
Qed.

Lemma substring_key (k v : string) :
  substring (k ++ String ":" v) 0 (Z.of_nat (String.length k)) = k.
Proof.
  unfold substring, clamp. rewrite length_append. simpl String.length.
  replace (Z.min _ _) with 0%Z by lia.
  replace (Z.max _ _ - 0)%Z with (Z.of_nat (String.length k)) by lia.
  rewrite Nat2Z.id. apply substring_prefix.
Qed.

Lemma substringFrom_value (k v : string) :
  substringFrom (k ++ String ":" v) (Z.of_nat (String.length k) + 1) = v.
Proof.
  unfold substringFrom, substring, clamp. rewrite length_append. simpl String.length.
  replace (Z.min _ _) with (Z.of_nat (String.length (k ++ ":"))) by (rewrite length_append; simpl; lia).
  replace (Z.max _ _ - _)%Z with (Z.of_nat (String.length v)) by (rewrite length_append; simpl; lia).
  rewrite !Nat2Z.id.
  replace (k ++ String ":" v) with ((k ++ ":") ++ v).
  - apply substring_suffix.
  - clear. induction k; simpl; congruence.
Qed.

(** ** The parser *)

(** The loop body, read through the cut at the first colon. *)
Lemma parseLine_cut (r : ImageGenResult) (line : string) :
  parseLine r line =
  match KeyValueSpec.cutAtColon line with
  | Some (k, v) => assign (KeyValueSpec.normalizeKey k) (trim v) r
  | None => r
  end.
Proof.
  unfold parseLine.
  destruct (KeyValueSpec.cutAtColon line) as [[k v]|] eqn:E.
  - apply cutAtColon_some in E. destruct E as [-> Hi].
    rewrite Hi. destruct (Z.of_nat (String.length k) =? -1)%Z eqn:En; [lia|].
    unfold lineKey, lineValue, KeyValueSpec.normalizeKey.
    now rewrite substring_key, substringFrom_value, trim_toLowerCase.
  - apply cutAtColon_none in E. now rewrite E.
Qed.

Ltac split_key key :=
  repeat match goal with
         | |- context [String.eqb key ?n] =>
             destruct (String.eqb_spec key n); [subst key|]
         end.

Lemma assign_image_url (key value : string) (r : ImageGenResult) :
  image_url (assign key value r) = if key =? "image_url" then JStr value else image_url r.
Proof. unfold assign. split_key key; reflexivity. Qed.

Lemma assign_enhanced_prompt (key value : string) (r : ImageGenResult) :
  enhanced_prompt (assign key value r)
  = if key =? "enhanced_prompt" then JStr value else enhanced_prompt r.
Proof. unfold assign. split_key key; reflexivity. Qed.

Lemma assign_original_prompt (key value : string) (r : ImageGenResult) :
  original_prompt (assign key value r)
  = if key =? "original_prompt" then JStr value else original_prompt r.
Proof. unfold assign. split_key key; reflexivity. Qed.

Lemma assign_style (key value : string) (r : ImageGenResult) :
  style (assign key value r) = if key =? "style" then JStr value else style r.
Proof. unfold assign. split_key key; reflexivity. Qed.

Lemma assign_generation_metadata (key value : string) (r : ImageGenResult) :
  generation_metadata (assign key value r)
  = if key =? "generation_metadata" then JStr value else generation_metadata r.
Proof. unfold assign. split_key key; reflexivity. Qed.

Lemma last_cons {A} (a d : A) (l : list A) : last (a :: l) d = last l a.
Proof.
  revert a d. induction l as [|b l IH]; intros a d; [reflexivity|].
  change (last (a :: b :: l) d) with (last (b :: l) d).
  now rewrite (IH b d), (IH b a).
Qed.

Section FieldOfLoop.

(** A field of the record, with the name the loop stores it under. *)
Variable proj : ImageGenResult -> JsVal.
Variable name : string.
Hypothesis proj_assign : forall key value r,
    proj (assign key value r) = if key =? name then JStr value else proj r.

Lemma field_of_loop (lines : list string) :
  forall (r : ImageGenResult) (d : string),
    proj r = JStr d ->
    proj (fold_left parseLine lines r)
    = JStr (last (map snd (filter (fun kv => fst kv =? name)
                             (KeyValueSpec.pairsOf lines))) d).
Proof.
  induction lines as [|line lines IH]; intros r d Hr; simpl; [exact Hr|].
  rewrite parseLine_cut.
  destruct (KeyValueSpec.cutAtColon line) as [[k v]|]; simpl.
  - destruct (KeyValueSpec.normalizeKey k =? name) eqn:E.
    + simpl map. rewrite last_cons. apply IH.
      rewrite proj_assign, E. reflexivity.
    + apply IH. rewrite proj_assign, E. exact Hr.
  - now apply IH.
Qed.

End FieldOfLoop.

Lemma result_eta (r : ImageGenResult) :
  r = mkImageGenResult (image_url r) (enhanced_prompt r) (original_prompt r)
        (style r) (generation_metadata r).
Proof. destruct r; reflexivity. Qed.

Lemma loop_spec (text : string) :
  fold_left parseLine (split LF text) emptyResult = KeyValueSpec.parseKeyValueText text.
Proof.
  rewrite (result_eta (fold_left _ _ _)). unfold KeyValueSpec.parseKeyValueText, KeyValueSpec.fieldOf.
  rewrite (field_of_loop image_url "image_url" assign_image_url _ emptyResult "" eq_refl).
  rewrite (field_of_loop enhanced_prompt "enhanced_prompt" assign_enhanced_prompt _ emptyResult "" eq_refl).
  rewrite (field_of_loop original_prompt "original_prompt" assign_original_prompt _ emptyResult "" eq_refl).
  rewrite (field_of_loop style "style" assign_style _ emptyResult "" eq_refl).
  rewrite (field_of_loop generation_metadata "generation_metadata" assign_generation_metadata _ emptyResult "" eq_refl).
  reflexivity.
Qed.

Lemma parseAgentTextResponse_string (text : string) :
  parseAgentTextResponse (JStr text) = Normal (fold_left parseLine (split LF text) emptyResult).
Proof.
  unfold parseAgentTextResponse. simpl.
  destruct text as [|c text]; reflexivity.
Qed.

Lemma parseAgentTextResponse_total (v : JsVal) :
  exists r, parseAgentTextResponse v = Normal r.
Proof.
  destruct v as [| | b | n | s | items | props]; try (eexists; reflexivity).
  - destruct b; eexists; reflexivity.
  - destruct (n =? 0)%Z eqn:E; unfold parseAgentTextResponse; simpl; rewrite E;
      eexists; reflexivity.
  - rewrite parseAgentTextResponse_string. eexists; reflexivity.
Qed.

(** C1. For every string [text], [parseAgentTextResponse] returns the record
    the specification describes: the text is split on newlines; a line with
    a colon gives the key (the part before the first colon, normalised) and
    the value (the part after it, trimmed); a value is stored only under one
    of the five known names; every other field is the empty string.  The
    parser completes normally on every input, and the scenario of the
    specification evaluates as written. *)
Theorem C1_parseAgentTextResponse_spec :
  (forall text : string,
      parseAgentTextResponse (JStr text) = Normal (KeyValueSpec.parseKeyValueText text))
  /\ (forall v : JsVal, exists r, parseAgentTextResponse v = Normal r)
  /\ parseAgentTextResponse
       (JStr ("image_url: http://a.com/i.png" ++ String LF "enhanced_prompt: a cat"))
     = Normal (mkImageGenResult (JStr "http://a.com/i.png") (JStr "a cat")
                 (JStr "") (JStr "") (JStr "")).
Proof.
  split; [|split].
  - intros text. now rewrite parseAgentTextResponse_string, loop_spec.
  - exact parseAgentTextResponse_total.
  - reflexivity.
Qed.

(** *** Lines appended to a text *)

Lemma split_nonempty (sep : ascii) (s : string) : split sep s <> [].
Proof.
  destruct s as [|c s]; simpl; [discriminate|].
  destruct (Ascii.eqb c sep); [discriminate|].
  destruct (split sep s); discriminate.
Qed.

Lemma split_no_sep (sep : ascii) (s : string) :
  indexOf sep s = (-1)%Z -> split sep s = [s].
Proof.
  induction s as [|c s IH]; simpl; [reflexivity|].
  destruct (Ascii.eqb c sep); [discriminate|].
  pose proof (indexOf_lower sep s).
  destruct (indexOf sep s <? 0)%Z eqn:E; [|lia].
  intros _. rewrite IH by lia. reflexivity.
Qed.

Lemma split_snoc_line (text line : string) :
  indexOf LF line = (-1)%Z ->
  split LF (text ++ String LF line) = (split LF text ++ [line])%list.
Proof.
  intros Hline. induction text as [|c text IH]; simpl.
  - now rewrite split_no_sep.
  - destruct (Ascii.eqb c LF); rewrite IH; [reflexivity|].
    destruct (split LF text) eqn:E; [|reflexivity].
    now apply split_nonempty in E.
Qed.

Lemma cutAtColon_app (k v : string) :
  indexOf ":" k = (-1)%Z -> KeyValueSpec.cutAtColon (k ++ String ":" v) = Some (k, v).
Proof.
  induction k as [|c k IH]; simpl; [reflexivity|].
  destruct (Ascii.eqb c ":"); [discriminate|].
  pose proof (indexOf_lower ":" k).
  destruct (indexOf ":" k <? 0)%Z eqn:E; [|lia].
  intros _. rewrite IH by lia. reflexivity.
Qed.

Lemma parse_snoc_line (text k v : string) :
  indexOf LF (k ++ String ":" v) = (-1)%Z ->
  indexOf ":" k = (-1)%Z ->
  forall r, parseAgentTextResponse (JStr text) = Normal r ->
  parseAgentTextResponse (JStr (text ++ String LF (k ++ String ":" v)))
  = Normal (assign (replaceWsRuns (toLowerCase (trim k))) (trim v) r).
Proof.
  intros Hlf Hk r Hr.
  rewrite parseAgentTextResponse_string in *. inversion Hr as [Hr']; clear Hr.
  rewrite split_snoc_line by exact Hlf.
  rewrite fold_left_app. simpl. rewrite parseLine_cut, cutAtColon_app by exact Hk.
  unfold KeyValueSpec.normalizeKey. now rewrite trim_toLowerCase.
Qed.

(** C10. When a recognised key comes again on a later line, the later line
    wins.  Appending to any text a line [k:v] (no newline in it, no colon in
    [k]) whose normalised key is one of the five names replaces that field of
    the earlier result by the trimmed [v] and leaves the other four fields as
    they were; the new value may be the empty string. *)
Theorem C10_last_line_wins (text k v : string) (r : ImageGenResult) :
  indexOf LF (k ++ String ":" v) = (-1)%Z ->
  indexOf ":" k = (-1)%Z ->
  parseAgentTextResponse (JStr text) = Normal r ->
  let key := replaceWsRuns (toLowerCase (trim k)) in
  let later := parseAgentTextResponse (JStr (text ++ String LF (k ++ String ":" v))) in
  (key = "image_url" -> later = Normal (set_image_url (JStr (trim v)) r))
  /\ (key = "enhanced_prompt" -> later = Normal (set_enhanced_prompt (JStr (trim v)) r))
  /\ (key = "original_prompt" -> later = Normal (set_original_prompt (JStr (trim v)) r))
  /\ (key = "style" -> later = Normal (set_style (JStr (trim v)) r))
  /\ (key = "generation_metadata" ->
      later = Normal (set_generation_metadata (JStr (trim v)) r)).
Proof.
  intros Hlf Hk Hr key later. subst later.
  rewrite (parse_snoc_line text k v Hlf Hk r Hr). fold key.
  repeat split; intros ->; reflexivity.
Qed.

(** An earlier non-empty [style] is replaced by the empty string of a later
    blank [style] line. *)
Lemma C10_last_line_wins_witness :
  parseAgentTextResponse (JStr ("style: oil" ++ String LF "Style:  "))
  = Normal (set_style (JStr "")
              (mkImageGenResult (JStr "") (JStr "") (JStr "") (JStr "oil") (JStr ""))).
Proof.
  refine (proj1 (proj2 (proj2 (proj2
            (C10_last_line_wins "style: oil" "Style" "  "
               (mkImageGenResult (JStr "") (JStr "") (JStr "") (JStr "oil") (JStr ""))
               _ _ _)))) _); reflexivity.
Defined.

(** ** [extractImageResult] *)

Lemma optGet_string_is_object (raw : JsVal) (k s : string) :
  Js.optGet raw k = JStr s -> Js.get raw k = Normal (JStr s).
Proof.
  unfold Js.optGet, Js.get. destruct (Js.isNullish raw); [discriminate|congruence].
Qed.

Lemma get_of_truthy (raw : JsVal) (k : string) :
  Js.truthy (Js.optGet raw k) = true -> Js.get raw k = Normal (Js.optGet raw k).
Proof.
  unfold Js.optGet, Js.get. destruct (Js.isNullish raw); [discriminate|reflexivity].
Qed.

Lemma truthy_JStr (s : string) : Js.truthy (JStr s) = true <-> s <> "".
Proof.
  simpl. destruct (String.eqb_spec s ""); simpl; split; congruence.
Qed.

(** When the first strategy applies. *)
Lemma isStringProp_true (raw : JsVal) (k : string) :
  isStringProp raw k = Normal true <->
  exists s, Js.optGet raw k = JStr s /\ s <> "".
Proof.
  unfold isStringProp. destruct (Js.truthy (Js.optGet raw k)) eqn:T.
  - rewrite (get_of_truthy _ _ T). simpl.
    destruct (Js.optGet raw k) as [| | b | n | s | items | props]; simpl;
      split; try discriminate; try (intros (s' & E & _); discriminate).
    + intros _. exists s. split; [reflexivity|]. now apply truthy_JStr.
    + reflexivity.
  - split; [discriminate|]. intros (s & E & Hs).
    rewrite E in T. apply truthy_JStr in Hs. congruence.
Qed.

Lemma isStringProp_total (raw : JsVal) (k : string) :
  exists b, isStringProp raw k = Normal b.
Proof.
  unfold isStringProp. destruct (Js.truthy (Js.optGet raw k)) eqn:T.
  - rewrite (get_of_truthy _ _ T). simpl. eexists; reflexivity.
  - eexists; reflexivity.
Qed.

Lemma isStringProp_false (raw : JsVal) (k : string) :
  isStringProp raw k <> Normal true -> isStringProp raw k = Normal false.
Proof.
  destruct (isStringProp_total raw k) as [[|] E]; congruence.
Qed.

(** C2, as the code has it.  For every [raw] whose [text] is a non-empty
    string, [extractImageResult raw] is the parse of that text, whatever else
    [raw] carries and whether or not the parse found an [image_url]. *)
Theorem C2_text_returns_parse (raw : JsVal) (text : string) :
  Js.optGet raw "text" = JStr text ->
  text <> "" ->
  extractImageResult raw = parseAgentTextResponse (JStr text).
Proof.
  intros Ht Hne. unfold extractImageResult.
  assert (isStringProp raw "text" = Normal true) as ->
      by (apply isStringProp_true; eauto).
  simpl. now rewrite (optGet_string_is_object _ _ _ Ht).
Qed.

Lemma C2_text_returns_parse_witness :
  extractImageResult Samples.everything
  = Normal (mkImageGenResult (JStr "") (JStr "") (JStr "") (JStr "oil") (JStr "")).
Proof.
  rewrite (C2_text_returns_parse Samples.everything "style: oil");
    [reflexivity | reflexivity | discriminate].
Defined.

(** C2 as stated fails when [raw.text] is the empty string: the guard of the
    first strategy needs a truthy [text], so extraction goes on to the later
    strategies and here returns the top-level URL. *)
Lemma C2_counterexample :
  Js.optGet Samples.emptyTextWithUrl "text" = JStr ""
  /\ extractImageResult Samples.emptyTextWithUrl
     = Normal (Samples.resultOfUrl "http://a.com/i.png")
  /\ parseAgentTextResponse (JStr "") = Normal emptyResult
  /\ extractImageResult Samples.emptyTextWithUrl <> parseAgentTextResponse (JStr "").
Proof. repeat split; discriminate. Qed.

Lemma text_not_applicable (raw : JsVal) :
  (forall s, Js.optGet raw "text" = JStr s -> s = "") ->
  isStringProp raw "text" = Normal false.
Proof.
  intros H. apply isStringProp_false. intros E.
  apply isStringProp_true in E. destruct E as (s & Es & Hs). auto.
Qed.

(** The second strategy, once the first does not apply. *)
Lemma message_strategy (raw : JsVal) (msg : string) (parsed : ImageGenResult) :
  (forall s, Js.optGet raw "text" = JStr s -> s = "") ->
  Js.optGet raw "message" = JStr msg ->
  parseAgentTextResponse (JStr msg) = Normal parsed ->
  extractImageResult raw
  = if Js.truthy (image_url parsed) then Normal parsed else extractAfterMessage raw.
Proof.
  intros Htext Hmsg Hparse. unfold extractImageResult.
  rewrite (text_not_applicable raw Htext). simpl.
  destruct (String.eqb_spec msg "") as [->|Hne].
  - assert (isStringProp raw "message" = Normal false) as ->.
    { apply isStringProp_false. intros E. apply isStringProp_true in E.
      destruct E as (s & Es & Hs). congruence. }
    simpl. inversion Hparse; subst. reflexivity.
  - assert (isStringProp raw "message" = Normal true) as ->
        by (apply isStringProp_true; eauto).
    simpl. rewrite (optGet_string_is_object _ _ _ Hmsg). simpl.
    rewrite Hparse. simpl.
    destruct (Js.truthy (image_url parsed)); reflexivity.
Qed.

(** C3, as the code has it.  Let [raw.text] not be a non-empty string and
    [raw.message] be a string.  If the parse of the message has a non-empty
    [image_url], that parse is the result, whatever [raw.data] holds; if it
    has none, the parse is dropped and the result is that of the later
    strategies. *)
Theorem C3_message_before_data (raw : JsVal) (msg : string) (parsed : ImageGenResult) :
  (forall s, Js.optGet raw "text" = JStr s -> s = "") ->
  Js.optGet raw "message" = JStr msg ->
  parseAgentTextResponse (JStr msg) = Normal parsed ->
  (Js.truthy (image_url parsed) = true -> extractImageResult raw = Normal parsed)
  /\ (Js.truthy (image_url parsed) = false ->
      extractImageResult raw = extractAfterMessage raw).
Proof.
  intros Htext Hmsg Hparse.
  pose proof (message_strategy raw msg parsed Htext Hmsg Hparse) as H.
  split; intros T; rewrite T in H; exact H.
Qed.

Lemma C3_message_before_data_witness :
  extractImageResult Samples.messageAndData
  = Normal (Samples.resultOfUrl "http://m.com/m.png")
  /\ extractImageResult Samples.plainMessageAndData
     = Normal (Samples.resultOfUrl "http://d.com/d.png").
Proof.
  split.
  - refine (proj1 (C3_message_before_data Samples.messageAndData
                     "image_url: http://m.com/m.png" _ _ _ _) _);
      try reflexivity.
    intros s H; discriminate H.
  - rewrite (proj2 (C3_message_before_data Samples.plainMessageAndData
                      "style: oil" _ (fun s H => ltac:(discriminate H))
                      eq_refl eq_refl) eq_refl).
    reflexivity.
Defined.

(** C3 as stated fails when [raw.text] is a non-empty string: the first
    strategy returns before the message is looked at. *)
Lemma C3_counterexample :
  Js.optGet Samples.everything "message" = JStr "image_url: http://m.com/m.png"
  /\ parseAgentTextResponse (JStr "image_url: http://m.com/m.png")
     = Normal (Samples.resultOfUrl "http://m.com/m.png")
  /\ extractImageResult Samples.everything
     = Normal (mkImageGenResult (JStr "") (JStr "") (JStr "") (JStr "oil") (JStr ""))
  /\ extractImageResult Samples.everything
     <> Normal (Samples.resultOfUrl "http://m.com/m.png").
Proof. repeat split; discriminate. Qed.

(** *** No URL in the text of a number *)

Lemma matchHere_needs_h (c : ascii) (s : string) :
  ci "h" c = false -> matchHere urlPattern (String c s) = None.
Proof. intros H. unfold matchHere, urlPattern. simpl. now rewrite H. Qed.

Lemma search_needs_h (s : string) :
  (forall c, In c (list_ascii_of_string s) -> ci "h" c = false) ->
  search urlPattern s = None.
Proof.
  induction s as [|c s IH]; intros H; [reflexivity|].
  simpl search. rewrite matchHere_needs_h by (apply H; left; reflexivity).
  apply IH. intros d Hd. apply H. right. exact Hd.
Qed.

Lemma uint_chars (d : Decimal.uint) (c : ascii) :
  In c (list_ascii_of_string (NilEmpty.string_of_uint d)) -> ci "h" c = false.
Proof.
  induction d; simpl; intros H; try contradiction;
    (destruct H as [<-|H]; [reflexivity | auto]).
Qed.

Lemma numberToString_chars (n : Z) (c : ascii) :
  In c (list_ascii_of_string (numberToString n)) -> ci "h" c = false.
Proof.
  unfold numberToString, NilZero.string_of_int, NilZero.string_of_uint.
  destruct (Z.to_int n) as [d|d].
  - destruct d; try apply uint_chars.
    simpl. intros [<-|[]]. reflexivity.
  - simpl. intros [<-|H]; [reflexivity|]. revert H.
    destruct d; try apply uint_chars.
    simpl. intros [<-|[]]. reflexivity.
Qed.

Lemma extractImageResult_number (n : Z) :
  extractImageResult (JNum n) = Normal emptyResult.
Proof.
  unfold extractImageResult, extractAfterMessage. simpl.
  unfold Js.or. simpl. destruct (n =? 0)%Z; simpl; [reflexivity|].
  now rewrite search_needs_h by apply numberToString_chars.
Qed.

(** C5. On [null], on [undefined], on every number (the integral numbers
    of this embedding) and on the empty object [extractImageResult]
    completes normally, that is without an exception, with all five fields
    the empty string. *)
Theorem C5_empty_on_non_objects :
  extractImageResult JNull = Normal emptyResult
  /\ extractImageResult JUndefined = Normal emptyResult
  /\ (forall n : Z, extractImageResult (JNum n) = Normal emptyResult)
  /\ extractImageResult (JObj []) = Normal emptyResult
  /\ emptyResult = mkImageGenResult (JStr "") (JStr "") (JStr "") (JStr "") (JStr "").
Proof.
  repeat split. exact extractImageResult_number.
Qed.

(** ** The backtracking matcher against the denotation *)

Import UrlSpec.

Lemma append_assoc (a b c : string) : (a ++ b) ++ c = a ++ b ++ c.
Proof. induction a; simpl; congruence. Qed.

Lemma append_empty_r (a : string) : a ++ "" = a.
Proof. induction a; simpl; congruence. Qed.

Lemma orElse_some {A} (a b : option A) (x : A) :
  orElse a b = Some x -> a = Some x \/ (a = None /\ b = Some x).
Proof. destruct a; simpl; intros H; [left | right]; auto. Qed.

Lemma starChar_sound (p : ascii -> bool) (k : string -> option nat) (s : string) (n : nat) :
  starChar p k s = Some n ->
  exists u rest m,
    s = u ++ rest
    /\ (forall d, In d (list_ascii_of_string u) -> p d = true)
    /\ k rest = Some m /\ n = String.length u + m.
Proof.
  revert n. induction s as [|c s IH]; intros n; simpl.
  - intros H. exists "", "", n. simpl. repeat split; auto; intros d [].
  - assert (k (String c s) = Some n ->
            exists u rest m, String c s = u ++ rest
              /\ (forall d, In d (list_ascii_of_string u) -> p d = true)
              /\ k rest = Some m /\ n = String.length u + m) as Hk.
    { intros H. exists "", (String c s), n. simpl. repeat split; auto; intros d []. }
    destruct (p c) eqn:Pc; [|exact Hk].
    intros H. apply orElse_some in H. destruct H as [H|[_ H]]; [|auto].
    destruct (starChar p k s) as [n'|] eqn:E; [|discriminate].
    simpl in H. inversion H; subst n.
    destruct (IH n' eq_refl) as (u & rest & m & -> & Hu & Hm & ->).
    exists (String c u), rest, m. simpl. repeat split; auto.
    intros d [<-|Hd]; auto.
Qed.

Lemma matchRe_sound (r : Regex) :
  forall (s : string) (k : string -> option nat) (n : nat),
    matchRe r s k = Some n ->
    exists u rest m,
      s = u ++ rest /\ Matches r u /\ k rest = Some m /\ n = String.length u + m.
Proof.
  induction r as [|p|r1 IH1 r2 IH2|r1 IH1 r2 IH2|p]; intros s k n; simpl.
  - intros H. exists "", s, n. repeat split; auto. constructor.
  - destruct s as [|c s]; [discriminate|].
    destruct (p c) eqn:Pc; [|discriminate].
    destruct (k s) as [m|] eqn:E; [|discriminate].
    simpl. intros H; inversion H; subst.
    exists (String c ""), s, m. repeat split; auto. now constructor.
  - intros H. apply IH1 in H. destruct H as (a & rest1 & m1 & -> & Ha & H & ->).
    apply IH2 in H. destruct H as (b & rest & m & -> & Hb & Hm & ->).
    exists (a ++ b), rest, m. rewrite append_assoc, length_append.
    repeat split; auto; [now constructor | lia].
  - intros H. apply orElse_some in H. destruct H as [H|[_ H]].
    + apply IH1 in H. destruct H as (u & rest & m & -> & Hu & Hm & ->).
      exists u, rest, m. repeat split; auto. now apply MAltL.
    + apply IH2 in H. destruct H as (u & rest & m & -> & Hu & Hm & ->).
      exists u, rest, m. repeat split; auto. now apply MAltR.
  - destruct s as [|c s]; [discriminate|].
    destruct (p c) eqn:Pc; [|discriminate].
    destruct (starChar p k s) as [n'|] eqn:E; [|discriminate].
    simpl. intros H; inversion H; subst n.
    apply starChar_sound in E. destruct E as (u & rest & m & -> & Hu & Hm & ->).
    exists (String c u), rest, m. repeat split; auto. now constructor.
Qed.

Lemma orElse_not_none {A} (a b : option A) :
  a <> None \/ b <> None -> orElse a b <> None.
Proof. destruct a; simpl; intros [H|H]; congruence. Qed.

Lemma option_map_not_none {A B} (f : A -> B) (a : option A) :
  a <> None -> option_map f a <> None.
Proof. destruct a; simpl; congruence. Qed.

Lemma starChar_complete (p : ascii -> bool) (k : string -> option nat) (u rest : string) :
  (forall d, In d (list_ascii_of_string u) -> p d = true) ->
  k rest <> None ->
  starChar p k (u ++ rest) <> None.
Proof.
  intros Hu Hk. induction u as [|c u IH]; simpl.
  - destruct rest as [|c rest]; simpl; [exact Hk|].
    destruct (p c); [|exact Hk]. apply orElse_not_none. now right.
  - rewrite (Hu c) by (left; reflexivity).
    apply orElse_not_none. left. apply option_map_not_none.
    apply IH. intros d Hd. apply Hu. now right.
Qed.

Lemma matchRe_complete (r : Regex) (u : string) :
  Matches r u ->
  forall (rest : string) (k : string -> option nat),
    k rest <> None -> matchRe r (u ++ rest) k <> None.
Proof.
  induction 1 as [|p c Pc|r1 r2 a b _ IH1 _ IH2|r1 r2 a _ IH|r1 r2 a _ IH|p c s Pc Hs];
    intros rest k Hk; simpl.
  - exact Hk.
  - rewrite Pc. now apply option_map_not_none.
  - rewrite append_assoc. apply IH1. now apply IH2.
  - apply orElse_not_none. left. now apply IH.
  - apply orElse_not_none. right. now apply IH.
  - rewrite Pc. apply option_map_not_none. now apply starChar_complete.
Qed.

Lemma matchHere_sound (r : Regex) (s : string) (n : nat) :
  matchHere r s = Some n ->
  exists post, s = String.substring 0 n s ++ post /\ Matches r (String.substring 0 n s).
Proof.
  intros H. apply matchRe_sound in H.
  destruct H as (u & rest & m & -> & Hu & Hm & ->). inversion Hm; subst m.
  rewrite Nat.add_0_r, substring_prefix. eauto.
Qed.

Lemma matchHere_complete (r : Regex) (u post : string) :
  Matches r u -> matchHere r (u ++ post) <> None.
Proof. intros H. apply (matchRe_complete r u H). discriminate. Qed.

(** [search] returns the leftmost substring the pattern denotes, and
    nothing only when there is none. *)
Lemma search_leftmost (r : Regex) (s : string) :
  match search r s with
  | Some u => Leftmost (Matches r) s u
  | None => NoSubstring (Matches r) s
  end.
Proof.
  induction s as [|c s IH].
  - simpl. destruct (matchHere r "") as [n|] eqn:E.
    + apply matchHere_sound in E. destruct E as (post & E & M).
      exists "", post. repeat split; auto. intros; simpl; lia.
    + intros pre u post Hs M.
      destruct pre; simpl in Hs; [|discriminate].
      rewrite Hs in E. now apply (matchHere_complete r u post).
  - simpl. destruct (matchHere r (String c s)) as [n|] eqn:E.
    + apply matchHere_sound in E. destruct E as (post & E & M).
      exists "", post. repeat split; auto. intros; simpl; lia.
    + destruct (search r s) as [u|].
      * destruct IH as (pre & post & -> & M & Hleft).
        exists (String c pre), post. repeat split; auto.
        intros pre' u' post' Hs M'. destruct pre' as [|c' pre']; simpl in Hs.
        -- rewrite Hs in E. now apply (matchHere_complete r u' post') in M'.
        -- inversion Hs; subst. simpl. apply le_n_S. eapply Hleft; eauto.
      * intros pre u post Hs M. destruct pre as [|c' pre]; simpl in Hs.
        -- rewrite Hs in E. now apply (matchHere_complete r u post) in M.
        -- inversion Hs; subst. eapply IH; eauto.
Qed.

(** *** The URL pattern in words *)

Lemma foldCase_colon (c : ascii) : foldCase c = ":"%char -> c = ":"%char.
Proof.
  destruct c as [b0 b1 b2 b3 b4 b5 b6 b7].
  destruct b0, b1, b2, b3, b4, b5, b6, b7; intros H; vm_compute in H;
    first [reflexivity | discriminate H].
Qed.

Lemma foldCase_slash (c : ascii) : foldCase c = "/"%char -> c = "/"%char.
Proof.
  destruct c as [b0 b1 b2 b3 b4 b5 b6 b7].
  destruct b0, b1, b2, b3, b4, b5, b6, b7; intros H; vm_compute in H;
    first [reflexivity | discriminate H].
Qed.

Lemma foldCase_dot (c : ascii) : foldCase c = "."%char -> c = "."%char.
Proof.
  destruct c as [b0 b1 b2 b3 b4 b5 b6 b7].
  destruct b0, b1, b2, b3, b4, b5, b6, b7; intros H; vm_compute in H;
    first [reflexivity | discriminate H].
Qed.

Lemma Matches_char (p : ascii -> bool) (u : string) :
  Matches (RChar p) u <-> exists c, u = String c "" /\ p c = true.
Proof.
  split.
  - intros H. inversion H; subst. eauto.
  - intros (c & -> & Pc). now constructor.
Qed.

Lemma Matches_seq (r1 r2 : Regex) (u : string) :
  Matches (RSeq r1 r2) u <-> exists a b, u = a ++ b /\ Matches r1 a /\ Matches r2 b.
Proof.
  split.
  - intros H. inversion H; subst. eauto.
  - intros (a & b & -> & Ha & Hb). now constructor.
Qed.

Lemma Matches_alt (r1 r2 : Regex) (u : string) :
  Matches (RAlt r1 r2) u <-> Matches r1 u \/ Matches r2 u.
Proof.
  split.
  - intros H. inversion H; subst; auto.
  - intros [H|H]; [now apply MAltL | now apply MAltR].
Qed.

Lemma Matches_empty (u : string) : Matches REmpty u <-> u = "".
Proof.
  split.
  - intros H. now inversion H.
  - intros ->. constructor.
Qed.

Lemma Matches_plus (p : ascii -> bool) (u : string) :
  Matches (RPlusChar p) u <->
  u <> "" /\ forall d, In d (list_ascii_of_string u) -> p d = true.
Proof.
  split.
  - intros H. inversion H; subst. split; [discriminate|].
    intros d [<-|Hd]; auto.
  - intros [Hne Hall]. destruct u as [|c u]; [congruence|].
    constructor.
    + apply Hall. now left.
    + intros d Hd. apply Hall. now right.
Qed.

Lemma Matches_lit (s u : string) : Matches (lit s) u <-> foldString u = s.
Proof.
  revert u. induction s as [|c s IH]; intros u.
  - simpl. rewrite Matches_empty. destruct u; simpl; split; congruence.
  - destruct s as [|c' s'].
    + simpl. rewrite Matches_char. unfold ci. split.
      * intros (a & -> & Ha). apply Ascii.eqb_eq in Ha. simpl. congruence.
      * destruct u as [|a [|b u]]; simpl; intros H; inversion H.
        exists a. split; [reflexivity|]. apply Ascii.eqb_refl.
    + change (lit (String c (String c' s')))
        with (RSeq (RChar (ci c)) (lit (String c' s'))).
      rewrite Matches_seq. split.
      * intros (a & b & -> & Ha & Hb). apply Matches_char in Ha.
        destruct Ha as (x & -> & Hx). apply Ascii.eqb_eq in Hx.
        apply IH in Hb. simpl. congruence.
      * destruct u as [|x b]; simpl; intros H; inversion H.
        exists (String x ""), b. split; [reflexivity|]. split.
        -- apply Matches_char. exists x. split; [reflexivity|]. apply Ascii.eqb_refl.
        -- now apply IH.
Qed.

Lemma Matches_imageExt (ext : string) :
  Matches imageExt ext <->
  In (foldString ext) ["png"; "jpg"; "jpeg"; "gif"; "webp"].
Proof.
  unfold imageExt. rewrite !Matches_alt, !Matches_lit. simpl.
  split; intros H;
    repeat (destruct H as [H|H]; [first [rewrite H | rewrite <- H]; auto 10|]);
    first [contradiction | rewrite H; auto 10].
Qed.

Lemma foldString_sep (sep : string) : foldString sep = "://" -> sep = "://".
Proof.
  destruct sep as [|a [|b [|c [|d sep]]]]; simpl; intros H; try discriminate H.
  injection H as Ha Hb Hc.
  apply foldCase_colon in Ha. apply foldCase_slash in Hb. apply foldCase_slash in Hc.
  now subst.
Qed.

Lemma foldString_app (a b : string) : foldString (a ++ b) = foldString a ++ foldString b.
Proof. induction a; simpl; congruence. Qed.

(** The pattern denotes exactly the image URLs. *)
Lemma urlPattern_denotes (u : string) : Matches urlPattern u <-> IsImageUrl u.
Proof.
  unfold urlPattern, IsImageUrl. split.
  - intros H.
    apply Matches_seq in H. destruct H as (h & u1 & -> & Hh & H).
    apply Matches_seq in H. destruct H as (o & u2 & -> & Ho & H).
    apply Matches_seq in H. destruct H as (sep & u3 & -> & Hsep & H).
    apply Matches_seq in H. destruct H as (body & u4 & -> & Hbody & H).
    apply Matches_seq in H. destruct H as (dot & ext & -> & Hdot & Hext).
    apply Matches_lit in Hh. apply Matches_lit in Hsep. apply foldString_sep in Hsep.
    apply Matches_plus in Hbody. destruct Hbody as [Hne Hall].
    apply Matches_char in Hdot. destruct Hdot as (x & -> & Hx).
    apply Ascii.eqb_eq, foldCase_dot in Hx. subst x sep.
    apply Matches_imageExt in Hext.
    exists (h ++ o), body, ext. rewrite append_assoc.
    split; [reflexivity|]. split; [|auto].
    rewrite foldString_app, Hh.
    apply Matches_alt in Ho. destruct Ho as [Ho|Ho].
    + apply Matches_char in Ho. destruct Ho as (x & -> & Hx).
      apply Ascii.eqb_eq in Hx. simpl. rewrite Hx. now right.
    + apply Matches_empty in Ho. subst o. now left.
  - intros (scheme & body & ext & -> & Hs & Hne & Hall & Hext).
    assert (exists h o, scheme = h ++ o /\ foldString h = "http"
                        /\ Matches (RAlt (RChar (ci "s")) REmpty) o) as (h & o & -> & Hh & Ho).
    { destruct Hs as [Hs|Hs].
      - exists scheme, "". rewrite append_empty_r. repeat split; auto.
        apply Matches_alt. right. constructor.
      - destruct scheme as [|a [|b [|c [|d [|e [|f scheme]]]]]]; simpl in Hs;
          try discriminate Hs.
        injection Hs as Ha Hb Hc Hd He.
        exists (String a (String b (String c (String d "")))), (String e "").
        repeat split; [simpl; congruence|].
        apply Matches_alt. left. apply Matches_char. exists e. split; [reflexivity|].
        unfold ci. apply Ascii.eqb_eq. exact He. }
    rewrite append_assoc.
    apply MSeq; [now apply Matches_lit|].
    apply MSeq; [exact Ho|].
    apply (MSeq _ _ "://"); [now apply Matches_lit|].
    apply MSeq; [now apply Matches_plus|].
    apply (MSeq _ _ "."); [|now apply Matches_imageExt].
    apply Matches_char. exists "."%char. split; reflexivity.
Qed.

(** ** The URL fallback *)

Lemma falls_through_message (raw : JsVal) :
  (forall s, Js.optGet raw "text" = JStr s -> s = "") ->
  (forall msg parsed,
      Js.optGet raw "message" = JStr msg ->
      parseAgentTextResponse (JStr msg) = Normal parsed ->
      Js.truthy (image_url parsed) = false) ->
  extractImageResult raw = extractAfterMessage raw.
Proof.
  intros Htext Hmsg.
  destruct (isStringProp_total raw "message") as [[|] E].
  - apply isStringProp_true in E. destruct E as (msg & Em & _).
    destruct (parseAgentTextResponse_total (JStr msg)) as [parsed Hp].
    rewrite (message_strategy raw msg parsed Htext Em Hp).
    now rewrite (Hmsg msg parsed Em Hp).
  - unfold extractImageResult.
    rewrite (text_not_applicable raw Htext). simpl. now rewrite E.
Qed.

Lemma stringify_defined (v : JsVal) :
  v <> JUndefined -> exists str, stringify v = Some str.
Proof.
  destruct v as [| | [|] | n | s | items | props]; intros H;
    try congruence; simpl; eauto.
Qed.

Lemma or_object_defined (v : JsVal) : Js.or v (JObj []) <> JUndefined.
Proof. unfold Js.or. destruct v; simpl; try discriminate. destruct b; discriminate.
       destruct (n =? 0)%Z; discriminate. destruct (s =? ""); discriminate. Qed.

Lemma Leftmost_iff (P Q : string -> Prop) (s u : string) :
  (forall x, P x <-> Q x) -> Leftmost P s u -> Leftmost Q s u.
Proof.
  intros H (pre & post & Hs & Hu & Hl). exists pre, post.
  repeat split; auto; [now apply H|].
  intros pre' u' post' Hs' Hu'. apply (Hl pre' u' post' Hs'). now apply H.
Qed.

Lemma NoSubstring_iff (P Q : string -> Prop) (s : string) :
  (forall x, P x <-> Q x) -> NoSubstring P s -> NoSubstring Q s.
Proof.
  intros H Hn pre u post Hs Hu. apply (Hn pre u post Hs). now apply H.
Qed.

(** The regular-expression search of the fallback, in words. *)
Lemma search_urlPattern (str : string) :
  match search urlPattern str with
  | Some url => Leftmost IsImageUrl str url
  | None => NoSubstring IsImageUrl str
  end.
Proof.
  pose proof (search_leftmost urlPattern str) as H.
  destruct (search urlPattern str).
  - eapply Leftmost_iff; [|exact H]. apply urlPattern_denotes.
  - eapply NoSubstring_iff; [|exact H]. apply urlPattern_denotes.
Qed.

(** C4. Let [raw] match none of the earlier strategies: its [text] is not a
    non-empty string, its [message] has no parse with an [image_url], it has
    no truthy [data] or [image_url], and it is not a string.  Then [raw] (or
    the empty object when [raw] is falsy) is serialised to a JSON text
    [str]; if [str] has a substring that is an http(s) URL ending in one of
    the image extensions, the result has the leftmost such substring as
    [image_url], [enhanced_prompt] from [raw.enhanced_prompt] or else
    [raw.summary], [original_prompt] and [style] from [raw], and an empty
    [generation_metadata]; otherwise all fields are empty. *)
Theorem C4_url_fallback (raw : JsVal) :
  (forall s, Js.optGet raw "text" = JStr s -> s = "") ->
  (forall msg parsed,
      Js.optGet raw "message" = JStr msg ->
      parseAgentTextResponse (JStr msg) = Normal parsed ->
      Js.truthy (image_url parsed) = false) ->
  Js.truthy (Js.optGet raw "data") = false ->
  Js.truthy (Js.optGet raw "image_url") = false ->
  Js.typeofString raw = false ->
  exists str,
    stringify (Js.or raw (JObj [])) = Some str
    /\ match search urlPattern str with
       | Some url =>
           Leftmost IsImageUrl str url
           /\ extractImageResult raw
              = Normal (mkImageGenResult
                          (JStr url)
                          (Js.or (Js.optGet raw "enhanced_prompt")
                             (Js.or (Js.optGet raw "summary") (JStr "")))
                          (Js.or (Js.optGet raw "original_prompt") (JStr ""))
                          (Js.or (Js.optGet raw "style") (JStr ""))
                          (JStr ""))
       | None =>
           NoSubstring IsImageUrl str
           /\ extractImageResult raw = Normal emptyResult
       end.
Proof.
  intros Htext Hmsg Hdata Hurl Hstr.
  rewrite (falls_through_message raw Htext Hmsg).
  unfold extractAfterMessage. rewrite Hdata, Hurl, Hstr.
  destruct (stringify_defined _ (or_object_defined raw)) as [str Es].
  exists str. split; [exact Es|]. rewrite Es.
  pose proof (search_urlPattern str) as H.
  destruct (search urlPattern str); split; auto.
Qed.

(** The example of the specification. *)
Lemma C4_url_fallback_witness :
  extractImageResult Samples.note = Normal (Samples.resultOfUrl "https://x.com/pic.PNG").
Proof.
  destruct (C4_url_fallback Samples.note
              (fun s H => ltac:(discriminate H))
              (fun msg parsed H _ => ltac:(discriminate H))
              eq_refl eq_refl eq_refl) as (str & Es & H).
  injection Es as <-.
  change (search urlPattern _) with (Some "https://x.com/pic.PNG") in H.
  exact (proj2 H).
Defined.

(** ** No strategy throws *)

Lemma get_of_defined (v : JsVal) (k : string) :
  Js.isNullish v = false -> Js.get v k = Normal (Js.optGet v k).
Proof. unfold Js.get, Js.optGet. now intros ->. Qed.

Lemma truthy_not_nullish (v : JsVal) : Js.truthy v = true -> Js.isNullish v = false.
Proof. destruct v; simpl; congruence. Qed.

Lemma optGet_nullish (v : JsVal) (k : string) :
  Js.isNullish v = true -> Js.optGet v k = JUndefined.
Proof. unfold Js.optGet. now intros ->. Qed.

Lemma fieldOrEmpty_defined (o : JsVal) (k : string) :
  Js.isNullish o = false ->
  fieldOrEmpty o k = Normal (Js.or (Js.optGet o k) (JStr "")).
Proof. intros H. unfold fieldOrEmpty. now rewrite get_of_defined. Qed.

Lemma extractAfterMessage_total (raw : JsVal) :
  exists r, extractAfterMessage raw = Normal r.
Proof.
  unfold extractAfterMessage.
  destruct (Js.truthy (Js.optGet raw "data")) eqn:Td.
  - rewrite (get_of_truthy _ _ Td). simpl.
    rewrite !fieldOrEmpty_defined by now apply truthy_not_nullish.
    simpl. eexists; reflexivity.
  - destruct (Js.truthy (Js.optGet raw "image_url")) eqn:Tu.
    + assert (Js.isNullish raw = false) as Hn.
      { destruct (Js.isNullish raw) eqn:E; [|reflexivity].
        rewrite optGet_nullish in Tu by exact E. discriminate. }
      rewrite !fieldOrEmpty_defined by exact Hn. simpl. eexists; reflexivity.
    + destruct (Js.typeofString raw); [apply parseAgentTextResponse_total|].
      destruct (stringify_defined _ (or_object_defined raw)) as [str ->].
      destruct (search urlPattern str); eexists; reflexivity.
Qed.

Lemma extractImageResult_total (raw : JsVal) :
  exists r, extractImageResult raw = Normal r.
Proof.
  unfold extractImageResult.
  destruct (isStringProp_total raw "text") as [[|] Et]; rewrite Et; simpl.
  - apply isStringProp_true in Et. destruct Et as (s & Es & _).
    rewrite (optGet_string_is_object _ _ _ Es). simpl.
    apply parseAgentTextResponse_total.
  - destruct (isStringProp_total raw "message") as [[|] Em]; rewrite Em; simpl.
    + apply isStringProp_true in Em. destruct Em as (s & Es & _).
      rewrite (optGet_string_is_object _ _ _ Es). simpl.
      destruct (parseAgentTextResponse_total (JStr s)) as [p ->]. simpl.
      destruct (Js.truthy (image_url p)); [eexists; reflexivity|].
      apply extractAfterMessage_total.
    + apply extractAfterMessage_total.
Qed.

(** ** The fallbacks of the handler *)

Lemma parse_of_falsy (v : JsVal) :
  Js.truthy v = false -> parseAgentTextResponse v = Normal emptyResult.
Proof. intros H. unfold parseAgentTextResponse. now rewrite H. Qed.

(** One fallback block, given the parse of its source: it changes the record
    only when [image_url] is empty and the parse has one. *)
Lemma fallbackFrom_spec (source : Completion JsVal) (src : JsVal)
      (from d : ImageGenResult) :
  (Js.truthy src = true -> source = Normal src) ->
  parseAgentTextResponse src = Normal from ->
  fallbackFrom source (Js.truthy src) d
  = Normal (if negb (Js.truthy (image_url d)) && Js.truthy (image_url from)
            then mkImageGenResult
                   (image_url from)
                   (if Js.truthy (enhanced_prompt d) then enhanced_prompt d
                    else enhanced_prompt from)
                   (original_prompt d)
                   (if Js.truthy (style d) then style d else style from)
                   (generation_metadata d)
            else d).
Proof.
  intros Hsrc Hparse. unfold fallbackFrom.
  destruct (Js.truthy (image_url d)) eqn:Tu; simpl; [reflexivity|].
  destruct (Js.truthy src) eqn:Ts.
  - rewrite (Hsrc eq_refl). simpl. rewrite Hparse. simpl.
    destruct (Js.truthy (image_url from)); [|reflexivity].
    unfold set_image_url, set_enhanced_prompt, set_style. simpl.
    destruct (Js.truthy (enhanced_prompt d)); simpl;
      destruct (Js.truthy (style d)); simpl; destruct d; reflexivity.
  - rewrite parse_of_falsy in Hparse by exact Ts. inversion Hparse; subst.
    reflexivity.
Qed.

Lemma nested_get (result : JsVal) (k1 k2 : string) :
  Js.truthy (Js.optGet (Js.optGet result k1) k2) = true ->
  (resp <- Js.get result k1 ;; Js.get resp k2)
  = Normal (Js.optGet (Js.optGet result k1) k2).
Proof.
  intros T.
  assert (Js.isNullish (Js.optGet result k1) = false) as H1.
  { destruct (Js.isNullish (Js.optGet result k1)) eqn:E; [|reflexivity].
    rewrite (optGet_nullish _ k2 E) in T. discriminate. }
  assert (Js.isNullish result = false) as H0.
  { destruct (Js.isNullish result) eqn:E; [|reflexivity].
    rewrite (optGet_nullish _ k1 E) in H1. discriminate. }
  rewrite (get_of_defined _ _ H0). simpl. now apply get_of_defined.
Qed.

(** The record of the success path, from the three parses. *)
Lemma resolveImageData_spec (result : JsVal) (promptText : string)
      (d0 m r : ImageGenResult) :
  extractImageResult (Js.optGet (Js.optGet result "response") "result") = Normal d0 ->
  parseAgentTextResponse (Js.optGet (Js.optGet result "response") "message") = Normal m ->
  parseAgentTextResponse (Js.optGet result "raw_response") = Normal r ->
  let step := fun (from d : ImageGenResult) =>
                if negb (Js.truthy (image_url d)) && Js.truthy (image_url from)
                then mkImageGenResult
                       (image_url from)
                       (if Js.truthy (enhanced_prompt d) then enhanced_prompt d
                        else enhanced_prompt from)
                       (original_prompt d)
                       (if Js.truthy (style d) then style d else style from)
                       (generation_metadata d)
                else d in
  let d2 := step r (step m d0) in
  resolveImageData result promptText
  = Normal (if negb (Js.truthy (original_prompt d2))
            then set_original_prompt (JStr (trim promptText)) d2
            else d2).
Proof.
  intros H0 Hm Hr step d2. unfold resolveImageData.
  rewrite H0. simpl.
  rewrite (fallbackFrom_spec _ _ m d0 (nested_get result "response" "message") Hm).
  simpl.
  rewrite (fallbackFrom_spec _ _ r _ (get_of_truthy result "raw_response") Hr).
  reflexivity.
Qed.

(** C6. On the success path of [handleGenerate] the record shown is built
    from the result of [extractImageResult] ([d0]), the parse of
    [response.message] ([m]) and the parse of [raw_response] ([r]): the two
    parses are used only while [image_url] is empty, first [m], then [r];
    a fallback sets [image_url] and fills [enhanced_prompt] and [style] only
    where they are empty; a field that is already non-empty is kept, and
    [generation_metadata] is never touched; an [original_prompt] that is
    still empty becomes the trimmed prompt of the form. *)
Theorem C6_handler_fallbacks (st : State) (result : JsVal) (nowId nowTs : Z) :
  Js.truthy (JStr (trim (prompt st))) = true ->
  loading st = false ->
  isSuccess result = Normal true ->
  exists d0 m r d,
    extractImageResult (Js.optGet (Js.optGet result "response") "result") = Normal d0
    /\ parseAgentTextResponse (Js.optGet (Js.optGet result "response") "message") = Normal m
    /\ parseAgentTextResponse (Js.optGet result "raw_response") = Normal r
    /\ currentResult (handleGenerate (Normal result) nowId nowTs st) = Some d
    /\ (Js.truthy (image_url d0) = true ->
        image_url d = image_url d0
        /\ enhanced_prompt d = enhanced_prompt d0
        /\ style d = style d0)
    /\ (Js.truthy (image_url d0) = false ->
        image_url d
        = (if Js.truthy (image_url m) then image_url m
           else if Js.truthy (image_url r) then image_url r
                else image_url d0)
        /\ enhanced_prompt d
           = (if Js.truthy (enhanced_prompt d0) then enhanced_prompt d0
              else if Js.truthy (image_url m) then enhanced_prompt m
                   else if Js.truthy (image_url r) then enhanced_prompt r
                        else enhanced_prompt d0)
        /\ style d
           = (if Js.truthy (style d0) then style d0
              else if Js.truthy (image_url m) then style m
                   else if Js.truthy (image_url r) then style r
                        else style d0))
    /\ (Js.truthy (enhanced_prompt d0) = true -> enhanced_prompt d = enhanced_prompt d0)
    /\ (Js.truthy (style d0) = true -> style d = style d0)
    /\ generation_metadata d = generation_metadata d0
    /\ original_prompt d
       = (if Js.truthy (original_prompt d0) then original_prompt d0
          else JStr (trim (prompt st))).
Proof.
  intros Hprompt Hload Hok.
  destruct (extractImageResult_total (Js.optGet (Js.optGet result "response") "result"))
    as [d0 H0].
  destruct (parseAgentTextResponse_total (Js.optGet (Js.optGet result "response") "message"))
    as [m Hm].
  destruct (parseAgentTextResponse_total (Js.optGet result "raw_response")) as [r Hr].
  pose proof (resolveImageData_spec result (prompt st) d0 m r H0 Hm Hr) as Hres.
  cbv zeta in Hres.
  match type of Hres with _ = Normal ?x => exists d0, m, r, x end.
  split; [exact H0|]. split; [exact Hm|]. split; [exact Hr|].
  split.
  { unfold handleGenerate. rewrite Hprompt, Hload. simpl.
    unfold settle. simpl. rewrite Hok. simpl. rewrite Hres. simpl. reflexivity. }
  destruct d0 as [u0 e0 o0 s0 g0], m as [um em om sm gm], r as [ur er or sr gr].
  cbn [image_url enhanced_prompt original_prompt style generation_metadata].
  destruct (Js.truthy u0) eqn:Tu, (Js.truthy um) eqn:Tm, (Js.truthy ur) eqn:Tr,
    (Js.truthy e0) eqn:Te, (Js.truthy s0) eqn:Ts, (Js.truthy o0) eqn:To;
    cbn [negb andb image_url enhanced_prompt original_prompt style
         generation_metadata set_original_prompt];
    rewrite ?Tu, ?Tm, ?Tr, ?Te, ?Ts, ?To;
    cbn [negb andb image_url enhanced_prompt original_prompt style
         generation_metadata set_original_prompt];
    rewrite ?Tu, ?Tm, ?Tr, ?Te, ?Ts, ?To;
    cbn [negb andb image_url enhanced_prompt original_prompt style
         generation_metadata set_original_prompt];
    repeat split; intros; try reflexivity; try discriminate.
Qed.

Lemma C6_handler_fallbacks_witness :
  exists d,
    currentResult (handleGenerate (Normal Samples.replyWithMessage) 1700000000000
                     1700000000001 Samples.readyState) = Some d
    /\ style d = JStr "oil"
    /\ generation_metadata d = JStr ""
    /\ original_prompt d = JStr "a cat".
Proof.
  destruct (C6_handler_fallbacks Samples.readyState Samples.replyWithMessage
              1700000000000 1700000000001 eq_refl eq_refl eq_refl)
    as (d0 & m & r & d & H0 & Hm & Hr & Hc & _ & _ & _ & Hs & Hg & Ho).
  injection H0 as <-.
  exists d. split; [exact Hc|]. split; [exact (Hs eq_refl)|]. split; [exact Hg|exact Ho].
Defined.

(** ** The history *)

Lemma slice_0_49 {A} (l : list A) : JsArray.slice l 0 49 = firstn 49 l.
Proof.
  unfold JsArray.slice.
  change (0 <? 0)%Z with false. change (49 <? 0)%Z with false. cbv iota.
  replace (Z.to_nat (Z.min 49 (Z.of_nat (List.length l)) - Z.min 0 (Z.of_nat (List.length l))))
    with (Nat.min 49 (List.length l)) by lia.
  replace (Z.to_nat (Z.min 0 (Z.of_nat (List.length l)))) with 0 by lia.
  rewrite <- firstn_firstn. simpl skipn. now rewrite firstn_all.
Qed.

Lemma historyUpdater_firstn {A} (e : A) (prev : list A) :
  historyUpdater e prev = e :: firstn 49 prev.
Proof. unfold historyUpdater. now rewrite slice_0_49. Qed.

Lemma firstn_50_absorb {A} (xs : list A) (e : A) (h : list A) :
  firstn 50 (xs ++ e :: firstn 49 h) = firstn 50 (xs ++ e :: h).
Proof.
  rewrite !firstn_app. f_equal.
  destruct (50 - List.length xs) as [|k] eqn:E; [reflexivity|].
  rewrite !firstn_cons. f_equal. rewrite firstn_firstn. f_equal. lia.
Qed.

(** Appending a sequence of entries, oldest first, to a history within the
    cap. *)
Lemma append_all {A} (entries : list A) :
  forall h : list A,
    List.length h <= 50 ->
    fold_left (fun hist e => historyUpdater e hist) entries h
    = firstn 50 (List.rev entries ++ h)%list.
Proof.
  induction entries as [|e es IH]; intros h Hh; cbn [fold_left List.rev].
  - symmetry. now apply firstn_all2.
  - rewrite IH.
    + rewrite historyUpdater_firstn, <- app_assoc. apply firstn_50_absorb.
    + rewrite historyUpdater_firstn. cbn [List.length]. rewrite length_firstn. lia.
Qed.

(** C7. The history update puts the new entry in front of the first 49
    entries of the previous list, so the result never has more than 50
    entries, whatever the length of the previous list; the entries kept are
    the previous ones, unchanged and in the same order (a prefix of the
    previous list).  Appending entries one after the other to the empty
    history leaves the last 50 of them, newest first; for 55 entries those
    are entries 6 to 55. *)
Theorem C7_history_cap :
  (forall (A : Type) (e : A) (prev : list A),
      historyUpdater e prev = e :: firstn 49 prev
      /\ List.length (historyUpdater e prev) <= 50
      /\ exists dropped, prev = (tl (historyUpdater e prev) ++ dropped)%list)
  /\ (forall (A : Type) (entries : list A),
         fold_left (fun hist e => historyUpdater e hist) entries []
         = List.rev (skipn (List.length entries - 50) entries))
  /\ fold_left (fun hist e => historyUpdater e hist) (seq 1 55) []
     = List.rev (seq 6 50).
Proof.
  split; [|split].
  - intros A e prev. rewrite historyUpdater_firstn. split; [reflexivity|]. split.
    + cbn [List.length]. rewrite length_firstn. lia.
    + exists (skipn 49 prev). cbn [tl]. symmetry. apply firstn_skipn.
  - intros A entries. rewrite append_all by (cbn [List.length]; lia).
    rewrite app_nil_r. apply firstn_rev.
  - vm_compute. reflexivity.
Qed.

(** The handlers use that update: on the success path the new history is
    the update of the old one with the new entry. *)
Lemma handleGenerate_history (st : State) (result : JsVal) (nowId nowTs : Z) :
  Js.truthy (JStr (trim (prompt st))) = true ->
  loading st = false ->
  isSuccess result = Normal true ->
  exists d,
    resolveImageData result (prompt st) = Normal d
    /\ history (handleGenerate (Normal result) nowId nowTs st)
       = historyUpdater (newHistoryItem (prompt st) (params st) d nowId nowTs) (history st)
    /\ activeHistoryId (handleGenerate (Normal result) nowId nowTs st) = Some (genId nowId)
    /\ loading (handleGenerate (Normal result) nowId nowTs st) = false.
Proof.
  intros Hprompt Hload Hok.
  destruct (extractImageResult_total (Js.optGet (Js.optGet result "response") "result"))
    as [d0 H0].
  destruct (parseAgentTextResponse_total (Js.optGet (Js.optGet result "response") "message"))
    as [m Hm].
  destruct (parseAgentTextResponse_total (Js.optGet result "raw_response")) as [r Hr].
  pose proof (resolveImageData_spec result (prompt st) d0 m r H0 Hm Hr) as Hres.
  cbv zeta in Hres.
  match type of Hres with _ = Normal ?x => exists x end.
  split; [exact Hres|].
  unfold handleGenerate. rewrite Hprompt, Hload. simpl.
  unfold settle. simpl. rewrite Hok. simpl. rewrite Hres. simpl.
  repeat split.
Qed.

(** ** Entry identifiers *)

Lemma to_int_proper (z : Z) : Z.to_int z <> Pos Nil /\ Z.to_int z <> Neg Nil.
Proof.
  destruct z as [|p|p]; simpl; split; try discriminate;
    intros H; injection H as H; now apply DecimalPos.Unsigned.to_uint_nonnil in H.
Qed.

Lemma numberToString_inj (a b : Z) : numberToString a = numberToString b -> a = b.
Proof.
  unfold numberToString. intros H.
  destruct (to_int_proper a) as [Ha1 Ha2], (to_int_proper b) as [Hb1 Hb2].
  pose proof (NilZero.isi (Z.to_int a) Ha1 Ha2) as Ia.
  pose proof (NilZero.isi (Z.to_int b) Hb1 Hb2) as Ib.
  rewrite H, Ib in Ia. injection Ia as Ia.
  rewrite <- (DecimalZ.of_to a), <- (DecimalZ.of_to b). now rewrite Ia.
Qed.

Lemma genId_inj (a b : Z) : genId a = genId b <-> a = b.
Proof.
  split; [|now intros ->].
  unfold genId. simpl. intros H. injection H as H. now apply numberToString_inj.
Qed.

(** C8, as the code has it.  On both pages the identifier of a new entry is
    [gen-] followed by the decimal clock reading taken for it, and nothing
    else: two new entries have the same identifier exactly when they were
    given the same reading. *)
Theorem C8_id_is_clock_reading :
  (forall p ps d n t,
      ImageMode.item_id (ImageMode.newHistoryItem p ps d n t) = "gen-" ++ numberToString n)
  /\ (forall p ps raw n t,
         EnhanceMode.item_id (EnhanceMode.newHistoryItem p ps raw n t)
         = "gen-" ++ numberToString n)
  /\ (forall p1 ps1 d1 n1 t1 p2 ps2 d2 n2 t2,
         ImageMode.item_id (ImageMode.newHistoryItem p1 ps1 d1 n1 t1)
         = ImageMode.item_id (ImageMode.newHistoryItem p2 ps2 d2 n2 t2)
         <-> n1 = n2)
  /\ (forall p1 ps1 r1 n1 t1 p2 ps2 r2 n2 t2,
         EnhanceMode.item_id (EnhanceMode.newHistoryItem p1 ps1 r1 n1 t1)
         = EnhanceMode.item_id (EnhanceMode.newHistoryItem p2 ps2 r2 n2 t2)
         <-> n1 = n2).
Proof.
  split; [reflexivity|]. split; [reflexivity|]. split.
  - intros. apply genId_inj.
  - intros. apply genId_inj.
Qed.

(** C8 as stated fails: the identifier has no random part, and two distinct
    entries created at the same clock reading carry the same identifier. *)
Lemma C8_counterexample :
  Samples.catEntry <> Samples.dogEntry
  /\ item_id Samples.catEntry = "gen-1700000000000"
  /\ item_id Samples.dogEntry = "gen-1700000000000"
  /\ item_id Samples.catEntry = item_id Samples.dogEntry.
Proof. repeat split. discriminate. Qed.

(** ** The prompt-enhancement page *)

(** C9. [extractImageData] returns [raw.summary], or the empty string when
    it is absent, and for each of the five fields the value under
    [raw.data], else the value on [raw] itself, else the empty string;
    "absent" is [undefined] or [null].  A text is never parsed: a string,
    or an object with only a [text] or a [message], gives empty fields. *)
Theorem C9_extractImageData :
  (forall raw : JsVal,
      let data := fst (EnhanceMode.extractImageData raw) in
      let summary := snd (EnhanceMode.extractImageData raw) in
      let preferred := fun (k : string) =>
        let nested := Js.optGet (Js.optGet raw "data") k in
        let direct := Js.optGet raw k in
        if Js.isNullish nested
        then (if Js.isNullish direct then JStr "" else direct)
        else nested in
      summary = (if Js.isNullish (Js.optGet raw "summary") then JStr ""
                 else Js.optGet raw "summary")
      /\ EnhanceMode.enhanced_prompt data = preferred "enhanced_prompt"
      /\ EnhanceMode.style_suggestion data = preferred "style_suggestion"
      /\ EnhanceMode.size_recommendation data = preferred "size_recommendation"
      /\ EnhanceMode.quality_notes data = preferred "quality_notes"
      /\ EnhanceMode.original_prompt data = preferred "original_prompt")
  /\ (forall text : string,
         let empty := (EnhanceMode.mkImageGenData (JStr "") (JStr "") (JStr "")
                         (JStr "") (JStr ""), JStr "") in
         EnhanceMode.extractImageData (JStr text) = empty
         /\ EnhanceMode.extractImageData (JObj [("text", JStr text)]) = empty
         /\ EnhanceMode.extractImageData (JObj [("message", JStr text)]) = empty).
Proof.
  split.
  - intros raw. repeat split.
  - intros text. repeat split.
Qed.


(* ================================================================== *)
(** * Further properties *)

Import Shape.

(** ** What the parser returns *)

Lemma chars_append (a b : string) (c : ascii) :
  In c (list_ascii_of_string (a ++ b))
  <-> In c (list_ascii_of_string a) \/ In c (list_ascii_of_string b).
Proof.
  induction a as [|x a IH]; simpl; [tauto|]. rewrite IH. tauto.
Qed.

Lemma indexOf_absent (c : ascii) (s : string) :
  indexOf c s = (-1)%Z <-> ~ In c (list_ascii_of_string s).
Proof.
  induction s as [|a s IH]; simpl; [tauto|].
  destruct (Ascii.eqb_spec a c) as [->|Hne].
  - split; [discriminate|]. intros H. exfalso. apply H. now left.
  - pose proof (indexOf_lower c s).
    destruct (indexOf c s <? 0)%Z eqn:E.
    + split; [|reflexivity]. intros _ [H1|H1]; [congruence|].
      apply IH; [lia|exact H1].
    + split; [lia|]. intros Hn. exfalso.
      assert (indexOf c s = (-1)%Z) by (apply IH; tauto). lia.
Qed.

Lemma chars_trimStart (s : string) (c : ascii) :
  In c (list_ascii_of_string (trimStart s)) -> In c (list_ascii_of_string s).
Proof.
  induction s as [|a s IH]; simpl; [tauto|].
  destruct (isWhiteSpace a); simpl; tauto.
Qed.

Lemma chars_trimEnd (s : string) (c : ascii) :
  In c (list_ascii_of_string (trimEnd s)) -> In c (list_ascii_of_string s).
Proof.
  induction s as [|a s IH]; simpl; [tauto|].
  destruct (trimEnd s) as [|b t].
  - destruct (isWhiteSpace a); simpl; tauto.
  - simpl in *. tauto.
Qed.

Lemma chars_trim (s : string) (c : ascii) :
  In c (list_ascii_of_string (trim s)) -> In c (list_ascii_of_string s).
Proof. intros H. now apply chars_trimStart, chars_trimEnd. Qed.

Lemma trimEnd_idempotent (s : string) : trimEnd (trimEnd s) = trimEnd s.
Proof.
  induction s as [|a s IH]; simpl; [reflexivity|].
  destruct (trimEnd s) as [|b t] eqn:E.
  - destruct (isWhiteSpace a) eqn:W; simpl; [reflexivity|]. now rewrite W.
  - change (trimEnd (String a (String b t)))
      with (match trimEnd (String b t) with
            | EmptyString => if isWhiteSpace a then EmptyString else String a EmptyString
            | u => String a u
            end).
    now rewrite IH.
Qed.

Lemma trimStart_head (s : string) :
  match trimStart s with
  | EmptyString => True
  | String c _ => isWhiteSpace c = false
  end.
Proof.
  induction s as [|a s IH]; simpl; [exact I|].
  destruct (isWhiteSpace a) eqn:W; [exact IH | exact W].
Qed.

Lemma trimEnd_keeps_head (c : ascii) (s : string) :
  isWhiteSpace c = false -> exists t, trimEnd (String c s) = String c t.
Proof.
  intros W. simpl. destruct (trimEnd s); rewrite ?W; eauto.
Qed.

Lemma trim_idempotent (s : string) : trim (trim s) = trim s.
Proof.
  unfold trim. pose proof (trimStart_head s) as H.
  destruct (trimStart s) as [|c t] eqn:E; [reflexivity|].
  destruct (trimEnd_keeps_head c t H) as [u Hu].
  rewrite Hu. cbn [trimStart]. rewrite H, <- Hu. apply trimEnd_idempotent.
Qed.

Lemma split_lines_no_sep (sep : ascii) (s line : string) :
  In line (split sep s) -> indexOf sep line = (-1)%Z.
Proof.
  revert line. induction s as [|c s IH]; intros line; simpl.
  - intros [<-|[]]. reflexivity.
  - destruct (Ascii.eqb_spec c sep) as [->|Hne].
    + intros [<-|H]; [reflexivity | now apply IH].
    + destruct (split sep s) as [|l ls] eqn:E.
      * intros [<-|[]]. simpl. apply Ascii.eqb_neq in Hne. now rewrite Hne.
      * intros [<-|H].
        -- simpl. apply Ascii.eqb_neq in Hne. rewrite Hne.
           rewrite (IH l) by now left. reflexivity.
        -- apply IH. now right.
Qed.

Lemma assign_fields (Q : string -> Prop) (key value : string) (r : ImageGenResult) :
  Q value -> FieldsSatisfy Q r -> FieldsSatisfy Q (assign key value r).
Proof.
  intros Hv (a & b & c & d & e & -> & Ha & Hb & Hc & Hd & He).
  unfold assign.
  repeat match goal with
         | |- context [String.eqb key ?n] => destruct (String.eqb key n)
         end;
    cbv [set_image_url set_enhanced_prompt set_original_prompt set_style
         set_generation_metadata image_url enhanced_prompt original_prompt style
         generation_metadata];
    do 5 eexists; (split; [reflexivity|]); auto.
Qed.

Lemma loop_fields (Q : string -> Prop) (lines : list string) :
  (forall line k v,
      In line lines -> KeyValueSpec.cutAtColon line = Some (k, v) -> Q (trim v)) ->
  forall r, FieldsSatisfy Q r -> FieldsSatisfy Q (fold_left parseLine lines r).
Proof.
  induction lines as [|line lines IH]; intros Hl r Hr; simpl; [exact Hr|].
  apply IH; [intros; eapply Hl; eauto; now right|].
  rewrite parseLine_cut.
  destruct (KeyValueSpec.cutAtColon line) as [[k v]|] eqn:E; [|exact Hr].
  apply assign_fields; [|exact Hr]. eapply Hl; eauto. now left.
Qed.

Lemma emptyResult_fields (Q : string -> Prop) : Q "" -> FieldsSatisfy Q emptyResult.
Proof. intros H. exists "", "", "", "", "". repeat split; exact H. Qed.

Lemma parse_fields (Q : string -> Prop) (v : JsVal) (r : ImageGenResult) :
  Q "" ->
  (forall text line k x,
      v = JStr text -> In line (split LF text) ->
      KeyValueSpec.cutAtColon line = Some (k, x) -> Q (trim x)) ->
  parseAgentTextResponse v = Normal r ->
  FieldsSatisfy Q r.
Proof.
  intros Q0 Hl Hp.
  destruct v as [| | b | n | text | items | props];
    try (inversion Hp; subst; now apply emptyResult_fields).
  - destruct b; inversion Hp; subst; now apply emptyResult_fields.
  - unfold parseAgentTextResponse in Hp. simpl in Hp.
    destruct (n =? 0)%Z; inversion Hp; subst; now apply emptyResult_fields.
  - rewrite parseAgentTextResponse_string in Hp. inversion Hp; subst.
    apply loop_fields; [|now apply emptyResult_fields].
    intros line k x Hin Hc. eapply Hl; eauto.
Qed.

(** X1. Whatever the parser is given, each of the five fields of its result
    is a string that [trim] leaves unchanged and that has no line feed:
    a value never carries leading or trailing white space, nor a second
    line. *)
Theorem parse_values_trimmed (v : JsVal) (r : ImageGenResult) :
  parseAgentTextResponse v = Normal r -> FieldsSatisfy TrimmedLine r.
Proof.
  apply parse_fields.
  - split; reflexivity.
  - intros text line k x _ Hin Hc. split; [apply trim_idempotent|].
    apply split_lines_no_sep in Hin. apply cutAtColon_some in Hc.
    destruct Hc as [-> _]. apply indexOf_absent. apply indexOf_absent in Hin.
    intros H. apply Hin. apply chars_trim in H.
    apply chars_append. right. now right.
Qed.

Lemma parse_values_trimmed_witness :
  FieldsSatisfy TrimmedLine
    (mkImageGenResult (JStr "u") (JStr "") (JStr "") (JStr "x:y") (JStr "")).
Proof.
  apply (parse_values_trimmed
           (JStr ("  Image   URL  :  u  " ++ String LF "STYLE:x:y "))).
  reflexivity.
Defined.

(** ** What the extraction returns *)

Lemma present_string (s : string) : Present (JStr s).
Proof.
  unfold Present. destruct (String.eqb_spec s "") as [->|H]; [now left|].
  right. now apply truthy_JStr.
Qed.

Lemma present_or_empty (x : JsVal) : Present (Js.or x (JStr "")).
Proof.
  unfold Present, Js.or. destruct (Js.truthy x) eqn:T; [now right | now left].
Qed.

Lemma present_or_or_empty (x y : JsVal) : Present (Js.or x (Js.or y (JStr ""))).
Proof.
  unfold Js.or at 1. destruct (Js.truthy x) eqn:T; [now right|].
  apply present_or_empty.
Qed.

Lemma parse_present (v : JsVal) (r : ImageGenResult) :
  parseAgentTextResponse v = Normal r -> AllPresent r.
Proof.
  intros H. apply (parse_fields (fun _ => True)) in H; auto.
  destruct H as (a & b & c & d & e & -> & _).
  repeat split; apply present_string.
Qed.

Lemma extractAfterMessage_present (raw : JsVal) :
  exists r, extractAfterMessage raw = Normal r /\ AllPresent r.
Proof.
  unfold extractAfterMessage.
  destruct (Js.truthy (Js.optGet raw "data")) eqn:Td.
  - rewrite (get_of_truthy _ _ Td). simpl.
    rewrite !fieldOrEmpty_defined by now apply truthy_not_nullish.
    simpl. eexists; split; [reflexivity|]. repeat split; apply present_or_empty.
  - destruct (Js.truthy (Js.optGet raw "image_url")) eqn:Tu.
    + assert (Js.isNullish raw = false) as Hn.
      { destruct (Js.isNullish raw) eqn:E; [|reflexivity].
        rewrite optGet_nullish in Tu by exact E. discriminate. }
      rewrite !fieldOrEmpty_defined by exact Hn. simpl.
      eexists; split; [reflexivity|]. repeat split; apply present_or_empty.
    + destruct (Js.typeofString raw).
      * destruct (parseAgentTextResponse_total raw) as [r Hr].
        exists r. split; [exact Hr | now apply parse_present in Hr].
      * destruct (stringify_defined _ (or_object_defined raw)) as [str ->].
        destruct (search urlPattern str); (eexists; split; [reflexivity|]).
        -- repeat split; simpl;
             first [apply present_string | apply present_or_empty
                   | apply present_or_or_empty].
        -- repeat split; apply present_string.
Qed.

(** X2. [extractImageResult] raises no exception on any value, and in the
    record it returns each of the five fields is present: the empty string
    or a truthy value, never [undefined], [null], [false] or zero. *)
Theorem extract_fields_present (raw : JsVal) :
  exists r, extractImageResult raw = Normal r /\ AllPresent r.
Proof.
  unfold extractImageResult.
  destruct (isStringProp_total raw "text") as [[|] Et]; rewrite Et; simpl.
  - apply isStringProp_true in Et. destruct Et as (s & Es & _).
    rewrite (optGet_string_is_object _ _ _ Es). simpl.
    destruct (parseAgentTextResponse_total (JStr s)) as [r Hr].
    exists r. split; [exact Hr | now apply parse_present in Hr].
  - destruct (isStringProp_total raw "message") as [[|] Em]; rewrite Em; simpl.
    + apply isStringProp_true in Em. destruct Em as (s & Es & _).
      rewrite (optGet_string_is_object _ _ _ Es). simpl.
      destruct (parseAgentTextResponse_total (JStr s)) as [r Hr]. rewrite Hr. simpl.
      destruct (Js.truthy (image_url r)).
      * exists r. split; [reflexivity | now apply parse_present in Hr].
      * apply extractAfterMessage_present.
    + apply extractAfterMessage_present.
Qed.

(** ** Windows line ends *)

Lemma split_crlf (s : string) : split LF (crlf s) = withCR (split LF s).
Proof.
  induction s as [|c s IH]; [reflexivity|].
  cbn [crlf split]. destruct (Ascii.eqb c LF) eqn:E.
  - cbn [split]. change (Ascii.eqb CR LF) with false. change (Ascii.eqb LF LF) with true.
    cbv iota. rewrite IH.
    destruct (split LF s) as [|l ls] eqn:El; [now apply split_nonempty in El|].
    reflexivity.
  - cbn [split]. rewrite E, IH.
    destruct (split LF s) as [|l ls] eqn:El; [now apply split_nonempty in El|].
    destruct ls; reflexivity.
Qed.

Lemma cutAtColon_snoc (l : string) (c : ascii) :
  Ascii.eqb c ":" = false ->
  KeyValueSpec.cutAtColon (l ++ String c "")
  = match KeyValueSpec.cutAtColon l with
    | Some (k, v) => Some (k, v ++ String c "")
    | None => None
    end.
Proof.
  intros Hc. induction l as [|a l IH]; simpl; [now rewrite Hc|].
  destruct (Ascii.eqb a ":"); [reflexivity|].
  rewrite IH. destruct (KeyValueSpec.cutAtColon l) as [[k v]|]; reflexivity.
Qed.

Lemma trimEnd_snoc_ws (x : string) (c : ascii) :
  isWhiteSpace c = true -> trimEnd (x ++ String c "") = trimEnd x.
Proof.
  intros W. induction x as [|a x IH]; simpl; [now rewrite W|]. now rewrite IH.
Qed.

Lemma trim_snoc_ws (v : string) (c : ascii) :
  isWhiteSpace c = true -> trim (v ++ String c "") = trim v.
Proof.
  intros W. unfold trim. induction v as [|a v IH]; simpl; [now rewrite W|].
  destruct (isWhiteSpace a); [exact IH|].
  exact (trimEnd_snoc_ws (String a v) c W).
Qed.

Lemma parseLine_CR (r : ImageGenResult) (line : string) :
  parseLine r (line ++ String CR "") = parseLine r line.
Proof.
  rewrite !parseLine_cut, cutAtColon_snoc by reflexivity.
  destruct (KeyValueSpec.cutAtColon line) as [[k v]|]; [|reflexivity].
  now rewrite trim_snoc_ws.
Qed.

Lemma loop_withCR (lines : list string) :
  forall r, fold_left parseLine (withCR lines) r = fold_left parseLine lines r.
Proof.
  induction lines as [|l [|l' ls] IH]; intros r; try reflexivity.
  change (withCR (l :: l' :: ls)) with ((l ++ String CR "") :: withCR (l' :: ls)).
  cbn [fold_left]. now rewrite parseLine_CR, IH.
Qed.

(** X3. The parser does not depend on the line ends: a text with a carriage
    return before every line feed parses to the same record as the text
    without them. *)
Theorem parse_ignores_carriage_returns (text : string) :
  parseAgentTextResponse (JStr (crlf text)) = parseAgentTextResponse (JStr text).
Proof.
  rewrite !parseAgentTextResponse_string, split_crlf, loop_withCR. reflexivity.
Qed.

(** ** The page as a state machine *)

Import ImagePage.

Lemma length_trimStart (s : string) : String.length (trimStart s) <= String.length s.
Proof.
  induction s as [|a s IH]; simpl; [lia|]. destruct (isWhiteSpace a); simpl; lia.
Qed.

Lemma length_trimEnd (s : string) : String.length (trimEnd s) <= String.length s.
Proof.
  induction s as [|a s IH]; simpl; [lia|].
  destruct (trimEnd s) as [|b t]; [destruct (isWhiteSpace a)|]; simpl in *; lia.
Qed.

Lemma length_trim (s : string) : String.length (trim s) <= String.length s.
Proof.
  unfold trim. pose proof (length_trimEnd (trimStart s)). pose proof (length_trimStart s).
  lia.
Qed.

Lemma Forall_firstn {A} (P : A -> Prop) (n : nat) (l : list A) :
  Forall P l -> Forall P (firstn n l).
Proof.
  intros H. rewrite <- (firstn_skipn n l) in H. now apply Forall_app in H.
Qed.

(** The success path never fails, and leaves an [original_prompt]. *)
Lemma resolveImageData_original_prompt (result : JsVal) (promptText : string) :
  trim promptText <> "" ->
  exists d, resolveImageData result promptText = Normal d
            /\ Js.truthy (original_prompt d) = true.
Proof.
  intros Hp.
  destruct (extractImageResult_total (Js.optGet (Js.optGet result "response") "result"))
    as [d0 H0].
  destruct (parseAgentTextResponse_total (Js.optGet (Js.optGet result "response") "message"))
    as [m Hm].
  destruct (parseAgentTextResponse_total (Js.optGet result "raw_response")) as [r Hr].
  pose proof (resolveImageData_spec result promptText d0 m r H0 Hm Hr) as Hres.
  cbv zeta in Hres.
  match type of Hres with _ = Normal ?x => exists x end.
  split; [exact Hres|].
  match goal with
  | |- context [negb (Js.truthy (original_prompt ?d))] =>
      destruct (Js.truthy (original_prompt d)) eqn:T
  end; simpl; [exact T|].
  destruct (String.eqb_spec (trim promptText) ""); [contradiction | reflexivity].
Qed.

(** The two ways a call settles: an entry is recorded and shown, or only
    the error message changes. *)
Lemma settle_cases (promptText : string) (ps : GenerationParams)
      (call : Completion JsVal) (nowId nowTs : Z) (st : State) :
  trim promptText <> "" ->
  (exists result d,
      call = Normal result
      /\ isSuccess result = Normal true
      /\ resolveImageData result promptText = Normal d
      /\ Js.truthy (original_prompt d) = true
      /\ settle promptText ps call nowId nowTs st
         = mkState (prompt st) (params st) false (error st) (copied st) (Some d)
             (historyUpdater (newHistoryItem promptText ps d nowId nowTs) (history st))
             (Some (genId nowId)))
  \/ ((forall result, call = Normal result -> isSuccess result <> Normal true)
      /\ exists e,
          Js.isNullish e = false
          /\ settle promptText ps call nowId nowTs st
             = mkState (prompt st) (params st) false e (copied st) (currentResult st)
                 (history st) (activeHistoryId st)).
Proof.
  intros Hp. unfold settle. destruct call as [result|e]; simpl.
  - destruct (isSuccess result) as [[|]|e] eqn:Hok; simpl.
    + left. destruct (resolveImageData_original_prompt result promptText Hp)
        as (d & Hd & Hop).
      exists result, d. rewrite Hd. simpl. repeat split; auto.
    + right. split; [intros r Hr; inversion Hr; subst; congruence|].
      eexists. split; [|reflexivity].
      unfold Js.coalesce.
      destruct (Js.isNullish (Js.optGet (Js.optGet result "response") "message")) eqn:E1;
        [|exact E1].
      destruct (Js.isNullish (Js.optGet result "error")) eqn:E2; [reflexivity|exact E2].
    + right. split; [intros r Hr; inversion Hr; subst; congruence|].
      eexists. split; [|reflexivity]. reflexivity.
  - right. split; [discriminate|]. eexists. split; [|reflexivity]. reflexivity.
Qed.

Lemma single_inflight (l : list Request) (index : nat) (rq : Request) :
  List.length l <= 1 -> nth_error l index = Some rq ->
  l = [rq] /\ (firstn index l ++ skipn (S index) l)%list = [].
Proof.
  destruct l as [|a [|b l]]; simpl; intros Hl Hn; try lia.
  - destruct index; discriminate.
  - destruct index as [|[|k]]; simpl in Hn; inversion Hn; subst. split; reflexivity.
Qed.

Lemma startGenerate_invariant (p : Page) :
  PageInvariant p -> PageInvariant (startGenerate p).
Proof.
  intros Inv. unfold startGenerate.
  destruct (negb (Js.truthy (JStr (trim (prompt (core p))))) || loading (core p)) eqn:G;
    [exact Inv|].
  apply orb_false_iff in G. destruct G as [Gp Gl].
  apply negb_false_iff, truthy_JStr in Gp.
  destruct Inv as (Hprompt & Hone & Hload & Hreqs & Hlen & Hitems & Hcur).
  assert (inflight p = []) as Hempty.
  { destruct (inflight p) eqn:E; [reflexivity|].
    assert (loading (core p) = true) by (apply Hload; discriminate). congruence. }
  unfold PageInvariant. cbn [core inflight prompt loading history currentResult].
  rewrite Hempty. cbn [app List.length].
  repeat split; auto; try discriminate.
  simpl. constructor; [split; assumption | constructor].
Qed.

Lemma settleRequest_invariant (index : nat) (call : Completion JsVal) (nowId nowTs : Z)
      (p : Page) :
  PageInvariant p -> PageInvariant (settleRequest index call nowId nowTs p).
Proof.
  intros Inv. unfold settleRequest.
  destruct (nth_error (inflight p) index) as [rq|] eqn:En; [|exact Inv].
  destruct Inv as (Hprompt & Hone & Hload & Hreqs & Hlen & Hitems & Hcur).
  destruct (single_inflight _ _ _ Hone En) as [Hl Hrest].
  rewrite Hrest. rewrite Hl in Hreqs. inversion Hreqs as [|? ? [Hrl Hrt] _]; subst.
  unfold PageInvariant. cbn [core inflight].
  destruct (settle_cases (req_prompt rq) (req_params rq) call nowId nowTs (core p) Hrt)
    as [(result & d & _ & _ & _ & Hd & ->) | (_ & e & _ & ->)];
    cbn [prompt loading history currentResult List.length].
  - repeat split; auto; try discriminate; try contradiction.
    + rewrite historyUpdater_firstn. cbn [List.length]. rewrite length_firstn. lia.
    + rewrite historyUpdater_firstn. constructor; [|now apply Forall_firstn].
      unfold WellFormedItem, newHistoryItem.
      cbn [item_prompt item_id item_result].
      pose proof (length_trim (req_prompt rq)).
      repeat split; eauto. lia.
    + intros d' Hd'. inversion Hd'; subst. exact Hd.
  - repeat split; auto; try discriminate; try contradiction.
Qed.

Lemma step_invariant (p : Page) (ev : Event) :
  PageInvariant p -> PageInvariant (step p ev).
Proof.
  intros Inv. destruct ev; cbn [step].
  - unfold handlePromptChange.
    destruct (String.length val <=? MAX_CHARS)%nat eqn:E; [|exact Inv].
    apply Nat.leb_le in E.
    destruct Inv as (Hprompt & Hone & Hload & Hreqs & Hlen & Hitems & Hcur).
    repeat split; auto; apply Hload.
  - now apply startGenerate_invariant.
  - unfold handleRegenerate.
    destruct (Js.truthy (JStr (trim (prompt (core p))))); [|exact Inv].
    now apply startGenerate_invariant.
  - unfold handleKeyDown.
    destruct ((key =? "Enter") && (metaKey || ctrlKey)); [|exact Inv].
    now apply startGenerate_invariant.
  - now apply settleRequest_invariant.
  - destruct (nth_error (history (core p)) index) as [item|] eqn:En; [|exact Inv].
    destruct Inv as (Hprompt & Hone & Hload & Hreqs & Hlen & Hitems & Hcur).
    apply nth_error_In in En.
    pose proof (proj1 (Forall_forall _ _) Hitems item En)
      as (Hip & _ & _ & d & Hd & Hop).
    unfold handleHistorySelect, PageInvariant.
    cbn [core inflight prompt loading history currentResult].
    repeat split; auto; try apply Hload.
    intros d' Hd'. rewrite Hd in Hd'. inversion Hd'; subst. exact Hop.
  - destruct Inv as (Hprompt & Hone & Hload & Hreqs & Hlen & Hitems & Hcur).
    unfold handleClear, onCore, PageInvariant.
    cbn [core inflight prompt loading history currentResult String.length].
    repeat split; auto; try apply Hload; try discriminate.
    unfold MAX_CHARS. lia.
  - destruct Inv as (Hprompt & Hone & Hload & Hreqs & Hlen & Hitems & Hcur).
    unfold handleClearHistory, onCore, PageInvariant.
    cbn [core inflight prompt loading history currentResult List.length].
    repeat split; auto; try apply Hload. lia.
  - unfold handleCopy.
    destruct (currentResult (core p)) as [r|] eqn:Ec; [|exact Inv].
    destruct (Js.truthy (enhanced_prompt r) && success); [|exact Inv].
    destruct Inv as (Hprompt & Hone & Hload & Hreqs & Hlen & Hitems & Hcur).
    repeat split; auto; apply Hload.
  - destruct Inv as (Hprompt & Hone & Hload & Hreqs & Hlen & Hitems & Hcur).
    repeat split; auto; apply Hload.
Qed.

Lemma initialPage_invariant : PageInvariant initialPage.
Proof.
  unfold PageInvariant, initialPage, MAX_CHARS. simpl.
  repeat split; auto; try lia; try discriminate; try contradiction.
Qed.

(** X4. From the initial state of the image page, with the demo switch off
    and nothing loaded from the store: whatever the user does (typing,
    starting a generation by button or key, choosing or clearing history,
    copying) and however the calls settle, between two events the prompt
    has at most 500 code units, at
    most one call is in flight and [loading] is set exactly then, the
    history has at most 50 entries, each recorded entry has a non-empty
    prompt of at most 500 code units, an identifier made from a clock
    reading and a result with a non-empty [original_prompt], and so has the
    result on display. *)
Theorem page_invariant (events : list Event) : PageInvariant (run events).
Proof.
  unfold run. generalize initialPage_invariant. generalize initialPage.
  induction events as [|ev events IH]; intros p Inv; simpl; [exact Inv|].
  apply IH. now apply step_invariant.
Qed.

(** The handler in two halves is the handler of [ImageMode] when nothing
    happens in between. *)
Lemma start_then_settle (p : Page) (call : Completion JsVal) (nowId nowTs : Z) :
  inflight p = [] ->
  core (settleRequest 0 call nowId nowTs (startGenerate p))
  = handleGenerate call nowId nowTs (core p).
Proof.
  intros He. unfold startGenerate, handleGenerate.
  destruct (negb (Js.truthy (JStr (trim (prompt (core p))))) || loading (core p)).
  - unfold settleRequest. now rewrite He.
  - unfold settleRequest. cbn [inflight]. rewrite He. reflexivity.
Qed.

(** ** How a generation ends *)

(** X5. When the agent reports success, a generation cannot end in an error,
    whatever the shape of the reply: the record is built without an
    exception, it has a non-empty [original_prompt], it is shown, and it is
    the result of the one entry put in front of the history, whose
    identifier becomes the active one; [loading] is reset and no error is
    set. *)
Theorem generation_success (call_result : JsVal) (nowId nowTs : Z) (st : State) :
  trim (prompt st) <> "" ->
  loading st = false ->
  isSuccess call_result = Normal true ->
  exists d,
    resolveImageData call_result (prompt st) = Normal d
    /\ Js.truthy (original_prompt d) = true
    /\ handleGenerate (Normal call_result) nowId nowTs st
       = mkState (prompt st) (params st) false JNull false (Some d)
           (newHistoryItem (prompt st) (params st) d nowId nowTs
              :: firstn 49 (history st))
           (Some (genId nowId)).
Proof.
  intros Hp Hl Hok.
  destruct (resolveImageData_original_prompt call_result (prompt st) Hp) as (d & Hd & Hop).
  exists d. split; [exact Hd|]. split; [exact Hop|].
  unfold handleGenerate. rewrite Hl.
  apply truthy_JStr in Hp. rewrite Hp. cbn [negb orb].
  unfold settle. cbn [bindC]. rewrite Hok. cbn [bindC]. rewrite Hd. cbn [bindC].
  cbn [prompt params loading error copied currentResult history activeHistoryId].
  now rewrite historyUpdater_firstn.
Qed.

Lemma generation_success_witness :
  exists d,
    history (handleGenerate (Normal Samples.replyWithMessage) 1700000000000
               1700000000001 Samples.readyState)
    = [newHistoryItem "  a cat " (mkParams "Realistic" "Square (1024x1024)" "HD") d
         1700000000000 1700000000001]
    /\ Js.truthy (original_prompt d) = true.
Proof.
  destruct (generation_success Samples.replyWithMessage 1700000000000 1700000000001
              Samples.readyState) as (d & _ & Hop & He);
    [discriminate | reflexivity | reflexivity |].
  exists d. rewrite He. split; [reflexivity | exact Hop].
Defined.

(** X6. When the call raises, or the reply is [null] or [undefined], or the
    agent does not report success, a generation changes nothing but the
    messages: the history and the active entry are as before, no result is
    shown, [loading] is reset, and the error is a value that is neither
    [null] nor [undefined]: the generic message when the call raised or
    the reply was missing, else the reply's [response.message], else its
    [error], else the default message. *)
Theorem generation_failure (call : Completion JsVal) (nowId nowTs : Z) (st : State) :
  trim (prompt st) <> "" ->
  loading st = false ->
  (forall result, call = Normal result -> isSuccess result <> Normal true) ->
  let message :=
    match call with
    | Normal result =>
        if Js.isNullish result then unexpectedMessage
        else Js.coalesce (Js.optGet (Js.optGet result "response") "message")
               (Js.coalesce (Js.optGet result "error") failureMessage)
    | Throw _ => unexpectedMessage
    end in
  Js.isNullish message = false
  /\ handleGenerate call nowId nowTs st
     = mkState (prompt st) (params st) false message false None
         (history st) (activeHistoryId st).
Proof.
  intros Hp Hl Hfail message. subst message.
  unfold handleGenerate. rewrite Hl.
  apply truthy_JStr in Hp. rewrite Hp. cbn [negb orb].
  unfold settle. destruct call as [result|e]; cbn [bindC]; [|split; reflexivity].
  specialize (Hfail result eq_refl).
  unfold isSuccess, Js.get in *. destruct (Js.isNullish result) eqn:En; cbn [bindC] in *.
  - split; reflexivity.
  - destruct (Js.truthy (Js.member result "success")) eqn:Ts; cbn [bindC] in *.
    + destruct (Js.strictEqStr (Js.optGet (Js.optGet result "response") "status") "success");
        [congruence|].
      split; [|reflexivity].
      unfold Js.coalesce.
      destruct (Js.isNullish (Js.optGet (Js.optGet result "response") "message")) eqn:E1;
        [|exact E1].
      destruct (Js.isNullish (Js.optGet result "error")) eqn:E2; [reflexivity|exact E2].
    + split; [|reflexivity].
      unfold Js.coalesce.
      destruct (Js.isNullish (Js.optGet (Js.optGet result "response") "message")) eqn:E1;
        [|exact E1].
      destruct (Js.isNullish (Js.optGet result "error")) eqn:E2; [reflexivity|exact E2].
Qed.

Lemma generation_failure_witness :
  handleGenerate (Normal (JObj [("success", JBool false); ("error", JStr "quota")]))
    1700000000000 1700000000001 Samples.readyState
  = mkState "  a cat " (mkParams "Realistic" "Square (1024x1024)" "HD")
      false (JStr "quota") false None [] None.
Proof.
  refine (proj2 (generation_failure
                   (Normal (JObj [("success", JBool false); ("error", JStr "quota")]))
                   1700000000000 1700000000001 Samples.readyState _ _ _)).
  - discriminate.
  - reflexivity.
  - intros result H. injection H as <-. discriminate.
Defined.


(** ** The URL fallback finds what the reply holds *)

Lemma Contains_refl (s : string) : Contains s s.
Proof. exists "", "". now rewrite append_empty_r. Qed.

Lemma Contains_trans (s x y : string) : Contains s x -> Contains x y -> Contains s y.
Proof.
  intros (a & b & ->) (c & d & ->). exists (a ++ c), (d ++ b).
  now rewrite !append_assoc.
Qed.

Lemma Contains_inside (a x b : string) : Contains (a ++ x ++ b) x.
Proof. now exists a, b. Qed.

Lemma joinComma_contains (l : list string) (x : string) :
  In x l -> Contains (joinComma l) x.
Proof.
  induction l as [|y l IH]; [intros []|].
  intros [->|H].
  - destruct l as [|z l]; [apply Contains_refl|].
    exists "", ("," ++ joinComma (z :: l)). reflexivity.
  - destruct l as [|z l]; [destruct H|].
    apply Contains_trans with (joinComma (z :: l)); [|now apply IH].
    exists (y ++ ","), "". cbn [joinComma].
    now rewrite append_empty_r, append_assoc.
Qed.

Lemma escapeString_app (a b : string) :
  escapeString (a ++ b) = escapeString a ++ escapeString b.
Proof.
  induction a as [|c a IH]; simpl; [reflexivity|]. now rewrite IH, append_assoc.
Qed.

(** A value held in the reply is, escaped, a part of the JSON text. *)
Lemma stringify_holds (raw : JsVal) (v : string) :
  Holds raw v -> exists str, stringify raw = Some str /\ Contains str (escapeString v).
Proof.
  induction 1 as [v|items x v Hin _ IH|props k x v Hin _ IH].
  - eexists. split; [reflexivity|]. unfold quoteJSONString.
    exists (String DQ ""), (String DQ ""). reflexivity.
  - destruct IH as (sx & Hsx & Hc).
    exists ("[" ++ joinComma (map (fun y => match stringify y with
                                            | Some t => t
                                            | None => "null"
                                            end) items) ++ "]").
    split; [reflexivity|].
    apply Contains_trans with sx; [|exact Hc].
    eapply Contains_trans; [apply (Contains_inside "[" _ "]")|].
    apply joinComma_contains. apply in_map_iff. exists x.
    split; [now rewrite Hsx | exact Hin].
  - destruct IH as (sx & Hsx & Hc).
    exists ("{" ++ joinComma (flat_map (fun kv => match stringify (snd kv) with
                                                 | Some t => [quoteJSONString (fst kv) ++ ":" ++ t]
                                                 | None => []
                                                 end) props) ++ "}").
    split; [reflexivity|].
    apply Contains_trans with sx; [|exact Hc].
    eapply Contains_trans; [apply (Contains_inside "{" _ "}")|].
    eapply Contains_trans.
    + apply joinComma_contains. apply in_flat_map. exists (k, x).
      split; [exact Hin|]. cbn [fst snd]. rewrite Hsx. now left.
    + exists (quoteJSONString k ++ ":"), "".
      now rewrite append_empty_r, append_assoc.
Qed.

Lemma escapeChar_of_letter (c : ascii) :
  isLowerLetter (foldCase c) = true -> escapeChar c = String c "".
Proof.
  destruct c as [b0 b1 b2 b3 b4 b5 b6 b7].
  destruct b0, b1, b2, b3, b4, b5, b6, b7; intros H;
    first [reflexivity | discriminate H].
Qed.

Lemma escapeString_of_letters (s t : string) :
  foldString s = t ->
  forallb isLowerLetter (list_ascii_of_string t) = true ->
  escapeString s = s.
Proof.
  revert t. induction s as [|c s IH]; intros t <- H; [reflexivity|].
  simpl in H. apply andb_true_iff in H. destruct H as [Hc Hs].
  simpl. rewrite (escapeChar_of_letter c Hc), (IH _ eq_refl Hs). reflexivity.
Qed.

Lemma escapeChar_in_class (c : ascii) :
  urlChar c = true ->
  escapeChar c <> ""
  /\ forallb urlChar (list_ascii_of_string (escapeChar c)) = true.
Proof.
  destruct c as [b0 b1 b2 b3 b4 b5 b6 b7].
  destruct b0, b1, b2, b3, b4, b5, b6, b7; intros H;
    first [discriminate H | split; [discriminate | reflexivity]].
Qed.

Lemma escapeString_in_class (body : string) :
  body <> "" ->
  (forall c, In c (list_ascii_of_string body) -> urlChar c = true) ->
  escapeString body <> ""
  /\ forall c, In c (list_ascii_of_string (escapeString body)) -> urlChar c = true.
Proof.
  intros Hne Hall. split.
  - destruct body as [|c body]; [congruence|]. simpl.
    destruct (escapeChar_in_class c (Hall c (or_introl eq_refl))) as [H _].
    destruct (escapeChar c); [congruence | discriminate].
  - clear Hne. induction body as [|c body IH]; simpl; [intros d []|].
    intros d Hd. apply chars_append in Hd. destruct Hd as [Hd|Hd].
    + destruct (escapeChar_in_class c (Hall c (or_introl eq_refl))) as [_ H].
      rewrite forallb_forall in H. now apply H.
    + apply IH; [|exact Hd]. intros x Hx. apply Hall. now right.
Qed.

(** Escaping keeps an image URL an image URL. *)
Lemma escapeString_image_url (u : string) : IsImageUrl u -> IsImageUrl (escapeString u).
Proof.
  intros (scheme & body & ext & -> & Hs & Hne & Hall & Hext).
  destruct (escapeString_in_class body Hne Hall) as [Hne' Hall'].
  exists scheme, (escapeString body), ext.
  assert (escapeString scheme = scheme) as Es.
  { destruct Hs as [Hs|Hs]; now apply (escapeString_of_letters _ _ Hs). }
  assert (escapeString ext = ext) as Ee.
  { simpl in Hext.
    destruct Hext as [H|[H|[H|[H|[H|[]]]]]]; symmetry in H;
      now apply (escapeString_of_letters _ _ H). }
  repeat split; auto.
  rewrite !escapeString_app, Es, Ee. reflexivity.
Qed.

Lemma holder_is_truthy (raw : JsVal) (v : string) :
  Holds raw v -> Js.typeofString raw = false -> Js.or raw (JObj []) = raw.
Proof. intros H T. destruct H; [discriminate| |]; reflexivity. Qed.

(** X7. The fallback looks everywhere: when none of the earlier strategies
    applies and some string held in the reply, at any depth of arrays and
    objects, contains an http(s) image URL, [extractImageResult] returns a
    record whose [image_url] is an image URL, hence not empty. *)
Theorem fallback_finds_held_url (raw : JsVal) (v u : string) :
  (forall s, Js.optGet raw "text" = JStr s -> s = "") ->
  (forall msg parsed,
      Js.optGet raw "message" = JStr msg ->
      parseAgentTextResponse (JStr msg) = Normal parsed ->
      Js.truthy (image_url parsed) = false) ->
  Js.truthy (Js.optGet raw "data") = false ->
  Js.truthy (Js.optGet raw "image_url") = false ->
  Js.typeofString raw = false ->
  Holds raw v ->
  Contains v u ->
  IsImageUrl u ->
  exists r url,
    extractImageResult raw = Normal r
    /\ image_url r = JStr url
    /\ IsImageUrl url.
Proof.
  intros Htext Hmsg Hdata Hurl Hstr Hh (pre & post & ->) Hu.
  rewrite (falls_through_message raw Htext Hmsg).
  unfold extractAfterMessage. rewrite Hdata, Hurl, Hstr.
  rewrite (holder_is_truthy raw _ Hh Hstr).
  destruct (stringify_holds raw _ Hh) as (str & -> & Hc).
  assert (Contains str (escapeString u)) as Hcu.
  { apply Contains_trans with (1 := Hc).
    rewrite !escapeString_app. apply Contains_inside. }
  pose proof (search_urlPattern str) as Hsearch.
  destruct (search urlPattern str) as [url|].
  - destruct Hsearch as (a & b & _ & Hurl' & _).
    eexists _, url. split; [reflexivity|]. split; [reflexivity | exact Hurl'].
  - destruct Hcu as (a & b & Hs). exfalso.
    apply (Hsearch a (escapeString u) b Hs). now apply escapeString_image_url.
Qed.

Lemma fallback_finds_held_url_witness :
  exists r url,
    extractImageResult
      (JObj [("items", JArr [JNum 1; JObj [("note", JStr "see https://x.com/pic.PNG now")]])])
    = Normal r
    /\ image_url r = JStr url
    /\ IsImageUrl url.
Proof.
  apply (fallback_finds_held_url _ "see https://x.com/pic.PNG now" "https://x.com/pic.PNG");
    try reflexivity; try (intros; discriminate).
  - eapply HoldsInObject; [left; reflexivity|].
    eapply HoldsInArray; [right; left; reflexivity|].
    eapply HoldsInObject; [left; reflexivity|]. constructor.
  - exists "see ", " now". reflexivity.
  - exists "https", "x.com/pic", "PNG". split; [reflexivity|].
    split; [now right|]. split; [discriminate|]. split.
    + intros c Hc. simpl in Hc.
      repeat (destruct Hc as [<-|Hc]; [reflexivity|]). destruct Hc.
    + left. reflexivity.
Defined.

(** ** Which URL the pattern picks *)

Lemma option_map_add_0 (x : option nat) : option_map (Nat.add 0) x = x.
Proof. destruct x; reflexivity. Qed.

(** A literal consumes exactly the text that folds onto it. *)
Lemma matchRe_lit (a : string) :
  forall (t rest : string) (k : string -> option nat),
    foldString a = t ->
    matchRe (lit t) (a ++ rest) k = option_map (Nat.add (String.length a)) (k rest).
Proof.
  induction a as [|c a IH]; intros t rest k <-.
  - simpl. symmetry. apply option_map_add_0.
  - destruct a as [|c' a'].
    + simpl. unfold ci. rewrite Ascii.eqb_refl. reflexivity.
    + change (lit (foldString (String c (String c' a'))))
        with (RSeq (RChar (ci (foldCase c))) (lit (foldString (String c' a')))).
      cbn [matchRe append]. unfold ci at 1. rewrite Ascii.eqb_refl.
      change (String c' (a' ++ rest)) with (String c' a' ++ rest).
      rewrite (IH _ rest k eq_refl).
      destruct (k rest); reflexivity.
Qed.

Lemma length_foldString (s : string) : String.length (foldString s) = String.length s.
Proof. induction s; simpl; congruence. Qed.

(** The extension is matched whole. *)
Lemma matchRe_imageExt (ext post : string) :
  In (foldString ext) ["png"; "jpg"; "jpeg"; "gif"; "webp"] ->
  matchRe imageExt (ext ++ post) (fun _ => Some 0) = Some (String.length ext).
Proof.
  intros H. simpl in H.
  destruct H as [H|[H|[H|[H|[H|[]]]]]];
    destruct ext as [|a [|b [|c [|d [|e ext]]]]]; simpl in H; try discriminate H;
    injection H; clear H; intros;
    unfold imageExt; cbn [matchRe lit append]; unfold ci;
    repeat match goal with
           | E : _ = foldCase _ |- _ => rewrite <- E; clear E
           end;
    reflexivity.
Qed.

Lemma starChar_from (p : ascii -> bool) (k : string -> option nat) (lo : nat)
      (s : string) (n : nat) :
  (forall t m, k t = Some m -> lo <= m) -> starChar p k s = Some n -> lo <= n.
Proof.
  intros Hk H. apply starChar_sound in H.
  destruct H as (u & rest & m & _ & _ & Hm & ->). apply Hk in Hm. lia.
Qed.

(** Among the ways to stop the greedy class, the matcher takes the one that
    gives the longest match, when what follows has a length between [lo]
    and [lo + 1]. *)
Lemma starChar_greedy (p : ascii -> bool) (k : string -> option nat) (lo : nat) :
  (forall t m, k t = Some m -> lo <= m <= lo + 1) ->
  forall (s : string) (n : nat),
    starChar p k s = Some n ->
    forall u rest m,
      s = u ++ rest ->
      (forall d, In d (list_ascii_of_string u) -> p d = true) ->
      k rest = Some m ->
      String.length u + m <= n.
Proof.
  intros Hk. induction s as [|c s IH]; intros n Hn u rest m Hs Hu Hm.
  - destruct u; [|discriminate]. simpl in Hs. subst rest. simpl in *.
    rewrite Hm in Hn. inversion Hn. lia.
  - simpl in Hn. destruct (p c) eqn:Pc.
    + destruct u as [|c' u]; simpl in Hs.
      * subst rest. simpl.
        destruct (starChar p k s) as [n'|] eqn:E; simpl in Hn.
        -- inversion Hn; subst n.
           assert (lo <= n')
             by (eapply starChar_from; [|exact E]; intros t m0 H0; apply Hk in H0; lia).
           apply Hk in Hm. lia.
        -- rewrite Hm in Hn. inversion Hn. lia.
      * inversion Hs; subst c' s.
        assert (forall d, In d (list_ascii_of_string u) -> p d = true) as Hu'
            by (intros d Hd; apply Hu; now right).
        destruct (starChar p k (u ++ rest)) as [n'|] eqn:E; simpl in Hn.
        -- inversion Hn; subst n. simpl.
           pose proof (IH n' eq_refl u rest m eq_refl Hu' Hm). lia.
        -- exfalso. apply (starChar_complete p k u rest Hu'); [congruence | exact E].
    + destruct u as [|c' u]; simpl in Hs.
      * subst rest. rewrite Hm in Hn. inversion Hn. simpl. lia.
      * inversion Hs; subst c' s. rewrite (Hu c) in Pc by now left. discriminate.
Qed.

Lemma scheme_parts (scheme : string) :
  foldString scheme = "http" \/ foldString scheme = "https" ->
  exists h o,
    scheme = h ++ o /\ foldString h = "http"
    /\ (o = "" \/ exists x, o = String x "" /\ foldCase x = "s"%char).
Proof.
  intros [Hs|Hs].
  - exists scheme, "". rewrite append_empty_r. auto.
  - destruct scheme as [|a [|b [|c [|d [|e [|f scheme]]]]]]; simpl in Hs;
      try discriminate Hs.
    injection Hs as Ha Hb Hc Hd He.
    exists (String a (String b (String c (String d "")))), (String e "").
    repeat split; [simpl; congruence|]. right. eauto.
Qed.

Lemma tail_bounds (t : string) (m : nat) :
  matchRe (RSeq (RChar (ci ".")) imageExt) t (fun _ => Some 0) = Some m -> 4 <= m <= 5.
Proof.
  intros H. apply matchRe_sound in H.
  destruct H as (u & rest & m0 & _ & Hu & Hm & ->). inversion Hm; subst m0.
  apply Matches_seq in Hu. destruct Hu as (a & b & -> & Ha & Hb).
  apply Matches_char in Ha. destruct Ha as (x & -> & _).
  apply Matches_imageExt in Hb. rewrite length_append. simpl String.length.
  rewrite <- (length_foldString b). simpl in Hb.
  destruct Hb as [H|[H|[H|[H|[H|[]]]]]]; rewrite <- H; simpl; lia.
Qed.

(** At one position the matcher returns the longest image URL that starts
    there. *)
Lemma matchHere_longest (s : string) (n : nat) :
  matchHere urlPattern s = Some n ->
  forall u post, s = u ++ post -> IsImageUrl u -> String.length u <= n.
Proof.
  intros Hn u post -> (scheme & body & ext & -> & Hs & Hne & Hall & Hext).
  destruct (scheme_parts scheme Hs) as (h & o & -> & Hh & Ho).
  pose (K3 := fun s' : string =>
                matchRe (RSeq (RChar (ci ".")) imageExt) s' (fun _ => Some 0)).
  pose (K2 := fun s' : string => matchRe (RPlusChar urlChar) s' K3).
  pose (K1 := fun s' : string => matchRe (lit "://") s' K2).
  pose (K0 := fun s' : string => matchRe (RAlt (RChar (ci "s")) REmpty) s' K1).
  change (matchRe (lit "http") (((h ++ o) ++ "://" ++ body ++ "." ++ ext) ++ post) K0
          = Some n) in Hn.
  rewrite !append_assoc in Hn. rewrite (matchRe_lit h _ _ _ Hh) in Hn.
  assert (K1 ("://" ++ body ++ "." ++ ext ++ post)
          = option_map (Nat.add 3) (K2 (body ++ "." ++ ext ++ post))) as E1
      by (unfold K1; now rewrite (matchRe_lit "://" "://")).
  assert (K3 ("." ++ ext ++ post) = Some (S (String.length ext))) as E3.
  { unfold K3. cbn [matchRe append]. change (ci "." ".") with true. cbv iota.
    now rewrite matchRe_imageExt. }
  assert (forall t m, K3 t = Some m -> 4 <= m <= 4 + 1) as B3
      by (intros t m H; exact (tail_bounds t m H)).
  destruct body as [|c body]; [congruence|].
  assert (forall n2, K2 (String c body ++ "." ++ ext ++ post) = Some n2 ->
                     String.length (String c body) + S (String.length ext) <= n2) as G2.
  { intros n2 H2. unfold K2 in H2.
    change (String c body ++ "." ++ ext ++ post)
      with (String c (body ++ "." ++ ext ++ post)) in H2.
    cbn [matchRe] in H2. rewrite (Hall c) in H2 by now left.
    destruct (starChar urlChar K3 (body ++ "." ++ ext ++ post)) as [n3|] eqn:E;
      simpl in H2; [|discriminate H2].
    inversion H2; subst n2.
    pose proof (starChar_greedy urlChar K3 4 B3 _ _ E body _ _ eq_refl
                  (fun d Hd => Hall d (or_intror Hd)) E3).
    simpl String.length. lia. }
  rewrite !length_append. simpl (String.length "://"). simpl (String.length ".").
  destruct Ho as [->|(x & -> & Hx)].
  - change (K0 ("" ++ "://" ++ String c body ++ "." ++ ext ++ post))
      with (K1 ("://" ++ String c body ++ "." ++ ext ++ post)) in Hn.
    rewrite E1 in Hn.
    destruct (K2 (String c body ++ "." ++ ext ++ post)) as [n2|] eqn:E2;
      [|discriminate Hn].
    simpl in Hn. inversion Hn; subst n. specialize (G2 n2 eq_refl).
    simpl in *. lia.
  - assert (K0 (String x "" ++ "://" ++ String c body ++ "." ++ ext ++ post)
            = option_map S (K1 ("://" ++ String c body ++ "." ++ ext ++ post))) as E0.
    { unfold K0. cbn [matchRe append]. unfold ci at 1. rewrite Hx. cbn [Ascii.eqb].
      change (Ascii.eqb "s" "s") with true. cbv iota.
      destruct (K1 (String ":" (String "/" (String "/"
                  (String c (body ++ String "." (ext ++ post))))))) eqn:E;
        [reflexivity|].
      cbn [option_map orElse]. unfold K1. cbn [lit matchRe]. unfold ci at 1.
      rewrite Hx. reflexivity. }
    rewrite E0, E1 in Hn.
    destruct (K2 (String c body ++ "." ++ ext ++ post)) as [n2|] eqn:E2;
      [|discriminate Hn].
    simpl in Hn. inversion Hn; subst n. specialize (G2 n2 eq_refl).
    simpl in *. lia.
Qed.

Lemma append_inj_length (a b a' b' : string) :
  a ++ b = a' ++ b' -> String.length a = String.length a' -> a = a' /\ b = b'.
Proof.
  revert a'. induction a as [|c a IH]; intros [|c' a']; simpl; intros H L;
    try discriminate; [auto|].
  inversion H; subst. destruct (IH a' H2) as [-> ->]; [lia|auto].
Qed.

Lemma search_unfold (r : Regex) (s : string) :
  search r s
  = match matchHere r s with
    | Some n => Some (String.substring 0 n s)
    | None => match s with
              | String _ s' => search r s'
              | EmptyString => None
              end
    end.
Proof. destruct s; reflexivity. Qed.

(** [search] with the position and the length of what it returns. *)
Lemma search_position (r : Regex) (s u : string) :
  search r s = Some u ->
  exists pre post,
    s = pre ++ u ++ post
    /\ matchHere r (u ++ post) = Some (String.length u)
    /\ forall pre' u' post',
        s = pre' ++ u' ++ post' -> Matches r u' -> String.length pre <= String.length pre'.
Proof.
  revert u. induction s as [|c s IH]; intros u H; rewrite search_unfold in H.
  - destruct (matchHere r "") as [n|] eqn:E; [|discriminate].
    pose proof E as E'. apply matchRe_sound in E'.
    destruct E' as (v & rest & m & Hs & _ & Hm & ->). inversion Hm; subst m.
    destruct v; [|discriminate]. simpl in H. injection H as <-.
    exists "", "". simpl. repeat split; auto. intros; lia.
  - destruct (matchHere r (String c s)) as [n|] eqn:E.
    + pose proof E as E'. apply matchRe_sound in E'.
      destruct E' as (v & rest & m & Hs & _ & Hm & ->). inversion Hm; subst m.
      rewrite Hs, Nat.add_0_r, substring_prefix in H. injection H as <-.
      exists "", rest. rewrite Hs. split; [reflexivity|]. split.
      * rewrite <- Hs, E. f_equal. lia.
      * intros; simpl; lia.
    + destruct (IH u H) as (pre & post & -> & Hm & Hleft).
      exists (String c pre), post. repeat split; auto.
      intros pre' u' post' Hs M'. destruct pre' as [|c' pre']; simpl in Hs.
      * rewrite Hs in E. now apply (matchHere_complete r u' post') in M'.
      * inversion Hs; subst. simpl. apply le_n_S. eapply Hleft; eauto.
Qed.

(** X8. The URL taken from the JSON text is the leftmost image URL in it
    and, among the image URLs that start at that place, the longest: every
    other image URL in the text starts later, or starts at the same place
    and is not longer. *)
Theorem search_leftmost_longest (str url : string) :
  search urlPattern str = Some url ->
  exists pre post,
    str = pre ++ url ++ post
    /\ IsImageUrl url
    /\ forall pre' u' post',
        str = pre' ++ u' ++ post' ->
        IsImageUrl u' ->
        String.length pre < String.length pre'
        \/ (pre' = pre /\ String.length u' <= String.length url).
Proof.
  intros H. destruct (search_position _ _ _ H) as (pre & post & -> & Hm & Hleft).
  exists pre, post. split; [reflexivity|]. split.
  - apply urlPattern_denotes. apply matchRe_sound in Hm.
    destruct Hm as (v & rest & m & Hs & Hv & Hk & Hl). inversion Hk; subst m.
    assert (String.length v = String.length url) as Hlen by lia.
    rewrite <- (append_empty_r v), <- (append_empty_r url) in Hs at 1.
    assert (url = v) as ->; [|exact Hv].
    destruct (append_inj_length url post v rest) as [-> _]; auto.
    rewrite !append_empty_r in Hs. exact Hs.
  - intros pre' u' post' Hs Hu'.
    pose proof (Hleft pre' u' post' Hs (proj2 (urlPattern_denotes u') Hu')) as Hle.
    destruct (Nat.eq_dec (String.length pre) (String.length pre')) as [Heq|Hne];
      [|left; lia].
    right. destruct (append_inj_length _ _ _ _ Hs Heq) as [-> Hrest].
    split; [reflexivity|].
    eapply matchHere_longest; [exact Hm | exact Hrest | exact Hu'].
Qed.

Lemma search_leftmost_longest_witness :
  exists pre post,
    "at HTTP://a.com/x.png.gif.bak, or https://b/c.jpeg"
    = pre ++ "HTTP://a.com/x.png.gif" ++ post
    /\ IsImageUrl "HTTP://a.com/x.png.gif"
    /\ forall pre' u' post',
        "at HTTP://a.com/x.png.gif.bak, or https://b/c.jpeg" = pre' ++ u' ++ post' ->
        IsImageUrl u' ->
        String.length pre < String.length pre'
        \/ (pre' = pre /\ String.length u' <= String.length "HTTP://a.com/x.png.gif").
Proof.
  exact (search_leftmost_longest "at HTTP://a.com/x.png.gif.bak, or https://b/c.jpeg"
           "HTTP://a.com/x.png.gif" eq_refl).
Defined.

(** ** The prompt-enhancement page as a state machine *)

Module EnhancePageFacts.

Import EnhanceMode EnhancePage.

Lemma coalesce_default (a b : JsVal) :
  Js.isNullish (Js.coalesce a (Js.coalesce b (JStr ""))) = false.
Proof.
  unfold Js.coalesce. destruct (Js.isNullish a) eqn:Ea; [|exact Ea].
  destruct (Js.isNullish b) eqn:Eb; [reflexivity | exact Eb].
Qed.

Lemma extractImageData_present (raw : JsVal) :
  DataPresent (fst (extractImageData raw))
  /\ Js.isNullish (snd (extractImageData raw)) = false.
Proof.
  unfold extractImageData, DataPresent, pick. cbn [fst snd].
  cbn [enhanced_prompt style_suggestion size_recommendation quality_notes original_prompt].
  repeat split; try apply coalesce_default.
  unfold Js.coalesce. destruct (Js.isNullish (Js.optGet raw "summary")) eqn:E;
    [reflexivity | exact E].
Qed.

(** The two ways a call settles on this page. *)
Lemma enhance_settle_cases (promptText : string) (ps : GenerationParams)
      (call : Completion JsVal) (nowId nowTs : Z) (st : State) :
  (exists result,
      call = Normal result
      /\ ImageMode.isSuccess result = Normal true
      /\ let agentResult := Js.optGet (Js.optGet result "response") "result" in
         settle promptText ps call nowId nowTs st
         = mkState (prompt st) (params st) false (error st)
             (Some (fst (extractImageData agentResult)))
             (snd (extractImageData agentResult))
             (historyUpdater (newHistoryItem promptText ps agentResult nowId nowTs)
                (history st))
             (Some (genId nowId)) (copied st) None)
  \/ ((forall result, call = Normal result -> ImageMode.isSuccess result <> Normal true)
      /\ exists e,
          Js.isNullish e = false
          /\ settle promptText ps call nowId nowTs st
             = mkState (prompt st) (params st) false e (currentResult st)
                 (currentSummary st) (history st) (activeHistoryId st) (copied st) None).
Proof.
  unfold settle. destruct call as [result|e]; cbn [bindC].
  - destruct (ImageMode.isSuccess result) as [[|]|e] eqn:Hok; cbn [bindC].
    + left. exists result. split; [reflexivity|]. split; [exact Hok|].
      cbv zeta. unfold newHistoryItem.
      destruct (extractImageData (Js.optGet (Js.optGet result "response") "result"))
        as [data summary].
      reflexivity.
    + right. split; [intros r Hr; inversion Hr; subst; congruence|].
      eexists. split; [|reflexivity].
      unfold Js.coalesce.
      destruct (Js.isNullish (Js.optGet (Js.optGet result "response") "message")) eqn:E1;
        [|exact E1].
      destruct (Js.isNullish (Js.optGet result "error")) eqn:E2; [reflexivity|exact E2].
    + right. split; [intros r Hr; inversion Hr; subst; congruence|].
      eexists. split; [|reflexivity]. reflexivity.
  - right. split; [discriminate|]. eexists. split; [|reflexivity]. reflexivity.
Qed.

Lemma enhance_single_inflight (l : list Request) (index : nat) (rq : Request) :
  List.length l <= 1 -> nth_error l index = Some rq ->
  l = [rq] /\ (firstn index l ++ skipn (S index) l)%list = [].
Proof.
  destruct l as [|a [|b l]]; simpl; intros Hl Hn; try lia.
  - destruct index; discriminate.
  - destruct index as [|[|k]]; simpl in Hn; inversion Hn; subst. split; reflexivity.
Qed.

Ltac split_conj := repeat match goal with |- _ /\ _ => split end.

Ltac close_iff :=
  try (split; intros; first [discriminate | reflexivity | contradiction | congruence]).

Lemma enhance_start_invariant (p : Page) :
  PageInvariant p -> PageInvariant (startGenerate p).
Proof.
  intros Inv. unfold startGenerate.
  destruct (negb (Js.truthy (JStr (trim (prompt (core p))))) || loading (core p)) eqn:G;
    [exact Inv|].
  apply orb_false_iff in G. destruct G as [Gp Gl].
  apply negb_false_iff, truthy_JStr in Gp.
  destruct Inv as (Hprompt & Hone & Hload & Hagent & Hreqs & Hlen & Hitems & Hsum & Hcur).
  assert (inflight p = []) as Hempty.
  { destruct (inflight p) eqn:E; [reflexivity|].
    assert (loading (core p) = true) by (apply Hload; discriminate). congruence. }
  unfold PageInvariant.
  cbn [core inflight prompt loading history currentResult currentSummary activeAgentId].
  rewrite Hempty. cbn [app List.length].
  split_conj; auto; close_iff.
  constructor; [split; assumption | constructor].
Qed.

Lemma enhance_settle_invariant (index : nat) (call : Completion JsVal) (nowId nowTs : Z)
      (p : Page) :
  PageInvariant p -> PageInvariant (settleRequest index call nowId nowTs p).
Proof.
  intros Inv. unfold settleRequest.
  destruct (nth_error (inflight p) index) as [rq|] eqn:En; [|exact Inv].
  destruct Inv as (Hprompt & Hone & Hload & Hagent & Hreqs & Hlen & Hitems & Hsum & Hcur).
  destruct (enhance_single_inflight _ _ _ Hone En) as [Hl Hrest].
  rewrite Hrest. rewrite Hl in Hreqs. inversion Hreqs as [|? ? [Hrl Hrt] _]; subst.
  unfold PageInvariant. cbn [core inflight].
  destruct (enhance_settle_cases (req_prompt rq) (req_params rq) call nowId nowTs (core p))
    as [(result & _ & _ & ->) | (_ & e & _ & ->)];
    cbn [prompt loading history currentResult currentSummary activeAgentId List.length].
  - destruct (extractImageData_present (Js.optGet (Js.optGet result "response") "result"))
      as [Hd Hs].
    split_conj; auto; close_iff.
    + rewrite historyUpdater_firstn. cbn [List.length]. rewrite length_firstn. lia.
    + rewrite historyUpdater_firstn. constructor; [|now apply Forall_firstn].
      unfold WellFormedItem, newHistoryItem.
      destruct (extractImageData (Js.optGet (Js.optGet result "response") "result"))
        as [data summary] eqn:Ed.
      cbn [item_prompt item_id item_result item_summary fst snd] in *.
      pose proof (length_trim (req_prompt rq)).
      split_conj; eauto. lia.
    + intros d' Hd'. inversion Hd'; subst. exact Hd.
  - split_conj; auto; close_iff.
Qed.

Lemma enhance_step_invariant (p : Page) (ev : Event) :
  PageInvariant p -> PageInvariant (step p ev).
Proof.
  intros Inv. destruct ev; cbn [step].
  - unfold handlePromptChange.
    destruct (String.length val <=? MAX_CHARS)%nat eqn:E; [|exact Inv].
    apply Nat.leb_le in E.
    destruct Inv as (Hprompt & Hone & Hload & Hagent & Hreqs & Hlen & Hitems & Hsum & Hcur).
    unfold PageInvariant, onCore.
    cbn [core inflight prompt loading history currentResult currentSummary activeAgentId].
    split_conj; auto.
  - now apply enhance_start_invariant.
  - unfold handleRegenerate.
    destruct (Js.truthy (JStr (trim (prompt (core p))))); [|exact Inv].
    now apply enhance_start_invariant.
  - unfold handleKeyDown.
    destruct ((key =? "Enter") && (metaKey || ctrlKey)); [|exact Inv].
    now apply enhance_start_invariant.
  - now apply enhance_settle_invariant.
  - destruct (nth_error (history (core p)) index) as [item|] eqn:En; [|exact Inv].
    destruct Inv as (Hprompt & Hone & Hload & Hagent & Hreqs & Hlen & Hitems & Hsum & Hcur).
    apply nth_error_In in En.
    pose proof (proj1 (Forall_forall _ _) Hitems item En)
      as (Hip & _ & _ & His & d & Hd & Hop).
    unfold handleHistorySelect, PageInvariant.
    cbn [core inflight prompt loading history currentResult currentSummary activeAgentId].
    split_conj; auto.
    intros d' Hd'. rewrite Hd in Hd'. inversion Hd'; subst. exact Hop.
  - destruct Inv as (Hprompt & Hone & Hload & Hagent & Hreqs & Hlen & Hitems & Hsum & Hcur).
    unfold handleClear, onCore, PageInvariant.
    cbn [core inflight prompt loading history currentResult currentSummary activeAgentId
         String.length].
    split_conj; auto; try discriminate.
    unfold MAX_CHARS. lia.
  - unfold handleCopy.
    destruct (currentResult (core p)) as [r|] eqn:Ec; [|exact Inv].
    destruct (Js.truthy (enhanced_prompt r) && success); [|exact Inv].
    destruct Inv as (Hprompt & Hone & Hload & Hagent & Hreqs & Hlen & Hitems & Hsum & Hcur).
    unfold PageInvariant, onCore.
    cbn [core inflight prompt loading history currentResult currentSummary activeAgentId].
    split_conj; auto.
  - destruct Inv as (Hprompt & Hone & Hload & Hagent & Hreqs & Hlen & Hitems & Hsum & Hcur).
    unfold PageInvariant, copiedTimeout, onCore.
    cbn [core inflight prompt loading history currentResult currentSummary activeAgentId].
    split_conj; auto.
Qed.

Lemma enhance_initial_invariant : PageInvariant initialPage.
Proof.
  unfold PageInvariant, initialPage, MAX_CHARS. simpl.
  split_conj; auto; try lia; close_iff.
Qed.

(** X9. From the initial state of the prompt-enhancement page, with the
    demo switch off and nothing loaded from the store: whatever the user
    does and however the calls settle, between two events the prompt has
    at most 500 code
    units, at most one call is in flight, [loading] and the active agent
    are set exactly then, the history has at most 50 entries, and in every
    recorded entry and in the result on display no field and no summary
    is [undefined] or [null]. *)
Theorem enhance_page_invariant (events : list Event) : PageInvariant (run events).
Proof.
  unfold run. generalize enhance_initial_invariant. generalize initialPage.
  induction events as [|ev events IH]; intros p Inv; simpl; [exact Inv|].
  apply IH. now apply enhance_step_invariant.
Qed.


(** X10. How a call settles on the prompt-enhancement page.  [loading] and
    the active agent are always reset and the prompt is kept.  When the
    agent reports success the data extracted from the reply are shown, with
    no field [undefined] or [null], and recorded in one new entry at the
    front of the history, which becomes the active one.  Otherwise the
    result on display, its summary, the history and the active entry stay
    as they were (this page does not clear the result), and the error is a
    value that is neither [null] nor [undefined]. *)
Theorem enhance_generation_outcome (promptText : string) (ps : GenerationParams)
        (call : Completion JsVal) (nowId nowTs : Z) (st : State) :
  let st' := settle promptText ps call nowId nowTs st in
  loading st' = false
  /\ activeAgentId st' = None
  /\ prompt st' = prompt st
  /\ (forall result,
         call = Normal result ->
         ImageMode.isSuccess result = Normal true ->
         let agentResult := Js.optGet (Js.optGet result "response") "result" in
         exists data,
           currentResult st' = Some data
           /\ DataPresent data
           /\ history st'
              = newHistoryItem promptText ps agentResult nowId nowTs
                  :: firstn 49 (history st)
           /\ item_result (newHistoryItem promptText ps agentResult nowId nowTs) = Some data
           /\ activeHistoryId st' = Some (genId nowId)
           /\ error st' = error st)
  /\ ((forall result, call = Normal result -> ImageMode.isSuccess result <> Normal true) ->
      currentResult st' = currentResult st
      /\ currentSummary st' = currentSummary st
      /\ history st' = history st
      /\ activeHistoryId st' = activeHistoryId st
      /\ Js.isNullish (error st') = false).
Proof.
  cbv zeta.
  destruct (enhance_settle_cases promptText ps call nowId nowTs st)
    as [(result & Hc & Hok & He) | (Hfail & e & Hn & He)]; cbv zeta in *; rewrite He;
    cbn [loading activeAgentId prompt currentResult currentSummary history
         activeHistoryId error].
  - split_conj; auto.
    + intros result' Hc' _. rewrite Hc in Hc'. injection Hc' as <-.
      destruct (extractImageData_present (Js.optGet (Js.optGet result "response") "result"))
        as [Hd _].
      exists (fst (extractImageData (Js.optGet (Js.optGet result "response") "result"))).
      split_conj; auto; try (now rewrite historyUpdater_firstn);
        unfold newHistoryItem;
        destruct (extractImageData (Js.optGet (Js.optGet result "response") "result"));
        reflexivity.
    + intros Hfail. exfalso. exact (Hfail result Hc Hok).
  - split_conj; auto.
    intros result Hc Hok. exfalso. exact (Hfail result Hc Hok).
Qed.

Lemma enhance_generation_outcome_witness :
  let st := mkState "a cat" (mkParams "Realistic" "Square (1:1)" "HD") true JNull
              None (JStr "") [] None false (Some AGENT_ID) in
  history (settle "a cat" (mkParams "Realistic" "Square (1:1)" "HD")
             (Normal (JObj [("success", JBool true);
                            ("response",
                             JObj [("status", JStr "success");
                                   ("result", JObj [("summary", JStr "ok")])])]))
             1700000000000 1700000000001 st)
  = [mkHistoryItem "gen-1700000000000" "a cat" "Realistic" "Square (1:1)" "HD"
       (Some (mkImageGenData (JStr "") (JStr "") (JStr "") (JStr "") (JStr "")))
       (JStr "ok") 1700000000001]
  /\ currentResult (settle "a cat" (mkParams "Realistic" "Square (1:1)" "HD")
                      (Throw TypeError) 1700000000000 1700000000001 st)
     = None.
Proof.
  cbv zeta. split.
  - destruct (proj1 (proj2 (proj2 (proj2
                (enhance_generation_outcome "a cat"
                   (mkParams "Realistic" "Square (1:1)" "HD")
                   (Normal (JObj [("success", JBool true);
                                  ("response",
                                   JObj [("status", JStr "success");
                                         ("result", JObj [("summary", JStr "ok")])])]))
                   1700000000000 1700000000001
                   (mkState "a cat" (mkParams "Realistic" "Square (1:1)" "HD") true JNull
                      None (JStr "") [] None false (Some AGENT_ID))))))
               _ eq_refl eq_refl) as (data & _ & _ & Hh & _).
    rewrite Hh. reflexivity.
  - refine (proj1 (proj2 (proj2 (proj2 (proj2
              (enhance_generation_outcome "a cat"
                 (mkParams "Realistic" "Square (1:1)" "HD")
                 (Throw TypeError) 1700000000000 1700000000001
                 (mkState "a cat" (mkParams "Realistic" "Square (1:1)" "HD") true JNull
                    None (JStr "") [] None false (Some AGENT_ID)))))) _)).
    discriminate.
Defined.

End EnhancePageFacts.

(** ** The stored history *)

Module HistoryStoreFacts.

Import HistoryStore.

Lemma persist_writes (h : HistoryValue) (sto : Storage) :
  writable sto = true ->
  exists text,
    stringify (historyJson h) = Some text
    /\ persistEffect h false sto = mkStorage (Some text) (readable sto) true.
Proof.
  intros W. unfold persistEffect, setItem. rewrite W. cbn [negb].
  destruct h; cbn [historyJson stringify]; eexists; split; reflexivity.
Qed.

(** X11. Mounting the page forgets the stored history.  With a store that
    can be read and written, whatever it holds, the effect that persists
    the history runs with the empty history of the first render before the
    effect of the demo switch reads the store back; so after mounting the
    history is empty and the store holds the empty list.  ([JSON.parse] is
    taken as given; of it only the reading of the empty list is used.) *)
Theorem mount_forgets_store (JSON_parse : string -> Completion JsVal) (t1 t2 : Z)
        (sto : Storage) :
  JSON_parse "[]" = Normal (JArr []) ->
  readable sto = true ->
  writable sto = true ->
  mount JSON_parse t1 t2 sto
  = (mkStoreState "" (mkParams "Realistic" "Square (1024x1024)" "HD") None None
       (Parsed []) false,
     mkStorage (Some "[]") true true).
Proof.
  intros Hparse R W. unfold mount.
  cbn [initialStore s_history s_showSampleData].
  assert (persistEffect (Items []) false sto = mkStorage (Some "[]") true true) as ->.
  { unfold persistEffect, setItem. rewrite W, R. reflexivity. }
  assert (storedArray JSON_parse (mkStorage (Some "[]") true true)
          = Normal (Some (Some []))) as Hs.
  { unfold storedArray, getItem. cbn. rewrite Hparse. reflexivity. }
  unfold toggleEffect. rewrite Hs. unfold applyAll. rewrite fold_left_app.
  cbn [fold_left setHistory s_prompt s_params s_currentResult s_activeHistoryId
       s_history s_showSampleData].
  unfold loadEffect.
  destruct (storedArray JSON_parse sto) as [[[elements|]|]|e]; reflexivity.
Qed.

Lemma mount_forgets_store_witness :
  mount (fun text => if text =? "[]" then Normal (JArr []) else Throw TypeError) 0 0
    (mkStorage (Some "[1,2,3]") true true)
  = (mkStoreState "" (mkParams "Realistic" "Square (1024x1024)" "HD") None None
       (Parsed []) false,
     mkStorage (Some "[]") true true).
Proof.
  apply (mount_forgets_store
           (fun text => if text =? "[]" then Normal (JArr []) else Throw TypeError));
    reflexivity.
Defined.

Lemma switch_on (JSON_parse : string -> Completion JsVal) (t1 t2 : Z)
      (st : StoreState) (sto : Storage) :
  s_showSampleData st = false ->
  setShowSampleData JSON_parse t1 t2 true (st, sto)
  = (mkStoreState "A cute cat sitting on a windowsill watching rain"
       (mkParams "Realistic" "Square (1024x1024)" "HD")
       (item_result (hd Samples.catEntry (SAMPLE_HISTORY t1 t2)))
       (Some "sample-1") (Items (SAMPLE_HISTORY t1 t2)) true,
     sto).
Proof. intros Hs. unfold setShowSampleData. rewrite Hs. reflexivity. Qed.

Lemma stored_text (JSON_parse : string -> Completion JsVal) (text : string)
      (r w : bool) :
  r = true -> Js.truthy (JStr text) = true ->
  match storedArray JSON_parse (mkStorage (Some text) r w) with
  | Normal (Some (Some elements)) => Parsed elements
  | _ => Items []
  end
  = match JSON_parse text with
    | Normal (JArr elements) => Parsed elements
    | _ => Items []
    end.
Proof.
  intros -> T. unfold storedArray, getItem. cbn [readable content bindC]. rewrite T.
  destruct (JSON_parse text) as [[]|]; reflexivity.
Qed.

(** X12. Switching the demo on and off again does not bring the stored
    history back.  With a store that can be read and written and a page not
    in demo mode, after the two switches the history is what [JSON.parse]
    makes of the serialised sample list (or empty, when that is not an
    array) and the store holds the serialisation of that history, whatever
    the store and the history held before. *)
Theorem demo_switch_overwrites_store (JSON_parse : string -> Completion JsVal)
        (t1 t2 : Z) (st : StoreState) (sto : Storage) :
  s_showSampleData st = false ->
  readable sto = true ->
  writable sto = true ->
  exists sampleText,
    stringify (historyJson (Items (SAMPLE_HISTORY t1 t2))) = Some sampleText
    /\ let h := match JSON_parse sampleText with
                | Normal (JArr elements) => Parsed elements
                | _ => Items []
                end in
       exists text,
         stringify (historyJson h) = Some text
         /\ setShowSampleData JSON_parse t1 t2 false
              (setShowSampleData JSON_parse t1 t2 true (st, sto))
            = (mkStoreState "" (mkParams "Realistic" "Square (1024x1024)" "HD") None None
                 h false,
               mkStorage (Some text) true true).
Proof.
  intros Hs R W.
  destruct (persist_writes (Items (SAMPLE_HISTORY t1 t2)) sto W) as (sampleText & Et & Ep).
  exists sampleText. split; [exact Et|]. cbv zeta.
  set (h := match JSON_parse sampleText with
            | Normal (JArr elements) => Parsed elements
            | _ => Items []
            end).
  destruct (persist_writes h (mkStorage (Some sampleText) (readable sto) true) eq_refl)
    as (text & Eh & Eph).
  exists text. split; [exact Eh|].
  rewrite (switch_on JSON_parse t1 t2 st sto Hs).
  assert (Js.truthy (JStr sampleText) = true) as Ht.
  { cbn [historyJson stringify] in Et. injection Et as <-. reflexivity. }
  unfold setShowSampleData.
  cbn [Bool.eqb s_showSampleData s_history s_prompt s_params s_currentResult
       s_activeHistoryId].
  rewrite Ep. unfold toggleEffect.
  rewrite (stored_text JSON_parse sampleText (readable sto) true R Ht). fold h.
  cbn [applyAll fold_left setHistory s_prompt s_params s_currentResult
       s_activeHistoryId s_history s_showSampleData].
  rewrite Eph. cbn [readable]. rewrite R. reflexivity.
Qed.

Lemma demo_switch_overwrites_store_witness :
  fst (setShowSampleData (fun _ => Throw TypeError) 0 0 false
         (setShowSampleData (fun _ => Throw TypeError) 0 0 true
            (mkStoreState "cat" (mkParams "Anime" "Square (1024x1024)" "HD") None None
               (Items [Samples.catEntry]) false,
             mkStorage (Some "[7]") true true)))
  = mkStoreState "" (mkParams "Realistic" "Square (1024x1024)" "HD") None None
      (Items []) false.
Proof.
  destruct (demo_switch_overwrites_store (fun _ => Throw TypeError) 0 0
              (mkStoreState "cat" (mkParams "Anime" "Square (1024x1024)" "HD") None None
                 (Items [Samples.catEntry]) false)
              (mkStorage (Some "[7]") true true) eq_refl eq_refl eq_refl)
    as (sampleText & _ & text & _ & ->).
  reflexivity.
Defined.

End HistoryStoreFacts.


(** ** Which keys are recognised *)

Example words_of_key : words "  Image   URL " = ["Image"; "URL"].
Proof. reflexivity. Qed.

Lemma words_head (c : ascii) (s : string) :
  isWhiteSpace c = false -> words (String c s) <> [].
Proof.
  intros W. cbn [words]. rewrite W. destruct s as [|c' s]; [discriminate|].
  destruct (isWhiteSpace c'); [discriminate|].
  destruct (words (String c' s)); discriminate.
Qed.

Lemma trimEnd_empty_words (s : string) : trimEnd s = "" <-> words s = [].
Proof.
  induction s as [|c s IH]; [simpl; tauto|].
  destruct (isWhiteSpace c) eqn:W.
  - cbn [words trimEnd]. rewrite W. destruct IH as [IH1 IH2].
    destruct (trimEnd s); split; intros H; auto; try discriminate H.
    specialize (IH2 H). discriminate IH2.
  - split; intros H.
    + cbn [trimEnd] in H. rewrite W in H. destruct (trimEnd s); discriminate H.
    + exfalso. exact (words_head c s W H).
Qed.

Lemma trimEnd_cons_keep (c : ascii) (s : string) :
  isWhiteSpace c = false -> trimEnd (String c s) = String c (trimEnd s).
Proof. intros W. simpl. rewrite W. destruct (trimEnd s); reflexivity. Qed.

Lemma joinWith_cons_char (sep : string) (c : ascii) (w : string) (rest : list string) :
  joinWith sep (String c w :: rest) = String c (joinWith sep (w :: rest)).
Proof. destruct rest; reflexivity. Qed.

(** The replacement on a string trimmed at its end, by the words of the
    string: one underscore between two words, and one in front when the
    string starts with white space outside a run. *)
Lemma replace_trimEnd_words (s : string) :
  forall inRun : bool,
    replaceWsRunsFrom inRun (trimEnd s)
    = match words s with
      | [] => ""
      | ws => (if startsWithWhiteSpace s && negb inRun then "_" else "")
                ++ joinWith "_" ws
      end.
Proof.
  induction s as [|c s IH]; intros inRun; [reflexivity|].
  destruct (isWhiteSpace c) eqn:W.
  - cbn [words startsWithWhiteSpace]. rewrite W.
    destruct (words s) as [|w ws] eqn:Ew.
    + apply trimEnd_empty_words in Ew. cbn [trimEnd]. now rewrite Ew, W.
    + assert (trimEnd s <> "") as Hne
          by (intros H; apply trimEnd_empty_words in H; congruence).
      assert (trimEnd (String c s) = String c (trimEnd s)) as ->
          by (cbn [trimEnd]; destruct (trimEnd s); [congruence | reflexivity]).
      cbn [replaceWsRunsFrom]. rewrite W, (IH true), ?Ew.
      rewrite andb_false_r. destruct inRun; reflexivity.
  - rewrite (trimEnd_cons_keep c s W). cbn [replaceWsRunsFrom startsWithWhiteSpace].
    rewrite W, (IH false). cbn [andb]. cbn [words]. rewrite W.
    destruct s as [|c' s']; [reflexivity|].
    cbn [startsWithWhiteSpace]. destruct (isWhiteSpace c') eqn:W'.
    + cbn [andb negb]. destruct (words (String c' s')) as [|w ws]; reflexivity.
    + destruct (words (String c' s')) as [|w ws] eqn:Ew;
        [now apply words_head in Ew|].
      cbn [andb]. now rewrite joinWith_cons_char.
Qed.

Lemma words_trimStart (s : string) : words (trimStart s) = words s.
Proof.
  induction s as [|c s IH]; [reflexivity|].
  cbn [trimStart]. destruct (isWhiteSpace c) eqn:W; [|reflexivity].
  rewrite IH. cbn [words]. now rewrite W.
Qed.

Lemma startsWithWhiteSpace_trimStart (s : string) :
  startsWithWhiteSpace (trimStart s) = false.
Proof.
  pose proof (trimStart_head s) as H. destruct (trimStart s); [reflexivity | exact H].
Qed.

(** X13. The key of a line is made of its words: the text before the colon
    is put in lower case, cut into its maximal runs without white space,
    and those are joined by single underscores.  So a key is recognised
    whatever its case, the white space around it and the amount of white
    space between its words. *)
Theorem key_is_joined_words (line : string) (colonIdx : Z) :
  lineKey line colonIdx
  = joinWith "_" (words (toLowerCase (substring line 0 colonIdx))).
Proof.
  unfold lineKey, replaceWsRuns. rewrite <- trim_toLowerCase. unfold trim.
  rewrite replace_trimEnd_words, words_trimStart, startsWithWhiteSpace_trimStart.
  destruct (words (toLowerCase (substring line 0 colonIdx))); reflexivity.
Qed.
